(** * copy_skill.py: a verified model of the skill-copy script

    The script removes the directory [.skill] of the working directory and
    copies the two subdirectories [scripts] and [data] of a fixed source
    directory into it, with [shutil.rmtree] and [shutil.copytree].

    The development has three layers:
    - directory trees and the three tree operations the library calls come
      down to (look a path up, remove a subtree, put a subtree in place);
    - the library calls [Path.exists], [shutil.rmtree], [shutil.copytree] and
      [print] as computations over a working directory and a tree, which
      either return or raise, and which log what they did;
    - the script itself, [copy_skill], written with the same calls in the
      same order as the Python source, and the theorems about it.

    The model is sequential: nothing else touches the tree while the script
    runs.  What the tree alone does not decide (a refusal by the operating
    system, what a call leaves behind when it fails midway) is a parameter of
    every statement. *)

From stdpp Require Import gmap strings list fin_maps.
From Stdlib Require Import Strings.Byte.

#[local] Set Warnings "-register-all".

(** ** Directory trees *)

(** A file system holds regular files (their bytes) and directories (their
    entries by name).  Links, permissions and time stamps are not part of the
    model: [copytree] is called without [symlinks], so it copies what a link
    points to, and no statement below is about metadata.  Names are the
    canonical names of the entries, so that two names are equal exactly when
    they name the same entry. *)
Inductive node : Type :=
  | File (data : list byte)
  | Dir (entries : gmap string node).

(** An absolute location: the names from the root of the tree downwards. *)
Abbreviation path := (list string).

Module Tree.

(** [walk p n] is what the tree [n] holds at [p]. *)
Fixpoint walk (p : path) (n : node) : option node :=
  match p with
  | [] => Some n
  | x :: p' =>
      match n with
      | File _ => None
      | Dir m => m !! x ≫= walk p'
      end
  end.

(** [unlink p n] removes the entry at [p], with everything below it.  Nothing
    changes when [p] names nothing. *)
Fixpoint unlink (p : path) (n : node) : node :=
  match p with
  | [] => n
  | x :: p' =>
      match n with
      | File _ => n
      | Dir m =>
          match p' with
          | [] => Dir (delete x m)
          | _ :: _ => Dir (alter (unlink p') x m)
          end
      end
  end.

(** [graft p v n] puts [v] at [p], creating the directories on the way that
    do not exist yet (as [os.makedirs] does).  It fails when a regular file
    stands where a directory is needed. *)
Fixpoint graft (p : path) (v : node) (n : node) : option node :=
  match p with
  | [] => Some v
  | x :: p' =>
      match n with
      | File _ => None
      | Dir m =>
          c ← graft p' v (default (Dir ∅) (m !! x));
          Some (Dir (<[x := c]> m))
      end
  end.

(** [fresh_prefix p n] is the shortest prefix of [p] that names nothing in
    [n]: the topmost entry that creating [p] would add.  There is none when
    [p] exists or when a regular file is in the way. *)
Fixpoint fresh_prefix (p : path) (n : node) : option path :=
  match p with
  | [] => None
  | x :: p' =>
      match n with
      | File _ => None
      | Dir m =>
          match m !! x with
          | None => Some [x]
          | Some c => (x ::.) <$> fresh_prefix p' c
          end
      end
  end.

(** [relative_to base p] is [p] as seen from [base], when [p] is at or below
    [base]. *)
Fixpoint relative_to (base p : path) : option path :=
  match base, p with
  | [], _ => Some p
  | _ :: _, [] => None
  | b :: base', x :: p' => if decide (b = x) then relative_to base' p' else None
  end.

(** What [shutil.copytree] builds from a directory it has listed: a new
    directory with a copy of every entry, files by their bytes ([copy2]) and
    directories entry by entry. *)
Fixpoint copy_node (n : node) : node :=
  match n with
  | File b => File b
  | Dir m => Dir (copy_node <$> m)
  end.

(** Two paths diverge when neither is at or below the other. *)
Definition diverge (p q : path) : Prop :=
  ¬ p `prefix_of` q ∧ ¬ q `prefix_of` p.

(** The number of nodes of a tree, to reason by induction on trees. *)
Fixpoint weight (n : node) : nat :=
  match n with
  | File _ => 1
  | Dir m => S (map_fold (λ _ c acc, weight c + acc) 0 m)
  end.

End Tree.

Import Tree.

(** ** Facts about trees *)

Section tree_facts.
Implicit Types (p q : path) (n v c : node) (m : gmap string node) (x y : string).

Lemma weight_entry m x c : m !! x = Some c → weight c < weight (Dir m).
Proof.
  intros Hx. cbn [weight].
  rewrite <-(insert_delete_id m x c Hx), map_fold_insert_L.
  - lia.
  - intros; lia.
  - apply lookup_delete_eq.
Qed.

(** Induction on trees: a property of files that passes from the entries of
    a directory to the directory holds of every tree. *)
Lemma node_tree_ind (P : node → Prop) :
  (∀ b, P (File b)) →
  (∀ m, map_Forall (λ _ c, P c) m → P (Dir m)) →
  ∀ n, P n.
Proof.
  intros HF HD n. remember (weight n) as k eqn:Hk. revert n Hk.
  induction k as [k IH] using lt_wf_ind. intros [b|m] ->; [apply HF|].
  apply HD. intros x c Hx. eapply IH; [|reflexivity].
  by eapply weight_entry.
Qed.

(** A copy is equal to its original: same names, same bytes. *)
Lemma copy_node_id n : copy_node n = n.
Proof.
  induction n as [b|m IH] using node_tree_ind; [done|].
  cbn. f_equal. apply map_eq. intros x. rewrite lookup_fmap.
  destruct (m !! x) as [c|] eqn:Hx; [|done].
  cbn. f_equal. by eapply IH.
Qed.

Lemma walk_app p q n : walk (p ++ q) n = walk p n ≫= walk q.
Proof.
  revert n. induction p as [|x p IH]; intros n; [done|].
  destruct n as [b|m]; [done|]. cbn.
  destruct (m !! x) as [c|]; [apply IH|done].
Qed.

Lemma walk_snoc_None p x n : walk p n = None → walk (p ++ [x]) n = None.
Proof. intros H. by rewrite walk_app, H. Qed.

Lemma relative_to_Some base p q : relative_to base p = Some q ↔ p = base ++ q.
Proof.
  revert p. induction base as [|b base IH]; intros p; cbn.
  - split; congruence.
  - destruct p as [|x p]; [done|]. case_decide as Hbx.
    + subst. rewrite IH. split; congruence.
    + split; [done|]. intros [= ? _]. done.
Qed.

Lemma relative_to_app base q : relative_to base (base ++ q) = Some q.
Proof. by apply relative_to_Some. Qed.

(** *** Paths that diverge *)

Lemma diverge_sym p q : diverge p q → diverge q p.
Proof. intros [? ?]. by split. Qed.

Lemma diverge_nil_l q : ¬ diverge [] q.
Proof. intros [H _]. apply H, prefix_nil. Qed.

Lemma diverge_nil_r p : ¬ diverge p [].
Proof. intros [_ H]. apply H, prefix_nil. Qed.

Lemma diverge_cons x y p q : diverge (x :: p) (y :: q) ↔ x ≠ y ∨ diverge p q.
Proof.
  unfold diverge. split.
  - intros [H1 H2]. destruct (decide (x = y)) as [->|]; [right|by left].
    split; intros ?; [apply H1|apply H2]; by apply prefix_cons.
  - intros [Hxy|[H1 H2]]; split; intros H.
    + by apply prefix_cons_inv_1 in H.
    + by apply prefix_cons_inv_1 in H.
    + by apply prefix_cons_inv_2 in H.
    + by apply prefix_cons_inv_2 in H.
Qed.

(** Any two paths are in line (one at or below the other) or diverge. *)
Lemma path_cases p q :
  (∃ r, q = p ++ r) ∨ (∃ y r, p = q ++ y :: r) ∨ diverge p q.
Proof.
  destruct (decide (p `prefix_of` q)) as [[r ->]|Hpq]; [left; eauto|].
  destruct (decide (q `prefix_of` p)) as [[[|y r] ->]|Hqp].
  - left. exists []. by rewrite !app_nil_r.
  - right; left; eauto.
  - right; right. by split.
Qed.

(** What lies below one of two diverging paths diverges from the other. *)
Lemma diverge_below p q r : diverge p q → diverge (p ++ r) q.
Proof.
  intros [H1 H2]. split; intros H.
  - apply H1. by eapply prefix_app_l.
  - destruct (prefix_weak_total q p (p ++ r)) as [?|?]; auto.
    by apply prefix_app_r.
Qed.

(** *** Looking up after a removal *)

Lemma unlink_File p b : unlink p (File b) = File b.
Proof. by destruct p. Qed.

Lemma unlink_last x m : unlink [x] (Dir m) = Dir (delete x m).
Proof. done. Qed.

Lemma unlink_cons x p m :
  p ≠ [] → unlink (x :: p) (Dir m) = Dir (alter (unlink p) x m).
Proof. by destruct p. Qed.

Lemma walk_unlink_diverge p q n :
  diverge p q → walk q (unlink p n) = walk q n.
Proof.
  revert q n. induction p as [|x p IH]; intros q n Hd.
  { by apply diverge_nil_l in Hd. }
  destruct q as [|y q]; [by apply diverge_nil_r in Hd|].
  destruct n as [b|m]; [by rewrite unlink_File|].
  apply diverge_cons in Hd. destruct (decide (p = [])) as [->|Hp].
  - destruct Hd as [Hxy|Hd]; [|by apply diverge_nil_l in Hd].
    rewrite unlink_last. cbn. by rewrite lookup_delete_ne.
  - rewrite unlink_cons by done. cbn [walk].
    destruct (decide (x = y)) as [<-|Hxy].
    + destruct Hd as [?|Hd]; [done|]. rewrite lookup_alter_eq.
      destruct (m !! x) as [c|]; [|done]. cbn. by apply IH.
    + by rewrite lookup_alter_ne.
Qed.

Lemma walk_unlink_above p y q n :
  walk p (unlink (p ++ y :: q) n) = unlink (y :: q) <$> walk p n.
Proof.
  revert n. induction p as [|x p IH]; intros n; [done|].
  destruct n as [b|m]; [by rewrite unlink_File|].
  change ((x :: p) ++ y :: q) with (x :: (p ++ y :: q)).
  rewrite unlink_cons by (by destruct p). cbn [walk].
  rewrite lookup_alter_eq. destruct (m !! x) as [c|]; [|done]. apply IH.
Qed.

Lemma walk_unlink_self x p n : walk (x :: p) (unlink (x :: p) n) = None.
Proof.
  revert x n. induction p as [|z p IH]; intros x n.
  - destruct n as [b|m]; [done|]. cbn. by rewrite lookup_delete_eq.
  - destruct n as [b|m]; [done|]. rewrite unlink_cons by done. cbn [walk].
    rewrite lookup_alter_eq. destruct (m !! x) as [c|]; [|done]. apply IH.
Qed.

Lemma walk_unlink_below x p q n : walk ((x :: p) ++ q) (unlink (x :: p) n) = None.
Proof. by rewrite walk_app, walk_unlink_self. Qed.

Lemma unlink_absent p n : walk p n = None → unlink p n = n.
Proof.
  revert n. induction p as [|x p IH]; intros n H; [done|].
  destruct n as [b|m]; [done|]. cbn in H.
  destruct (decide (p = [])) as [->|Hp].
  - rewrite unlink_last. f_equal. apply delete_id. by destruct (m !! x).
  - rewrite unlink_cons by done. f_equal. apply map_eq. intros k.
    destruct (decide (x = k)) as [<-|Hk].
    + rewrite lookup_alter_eq. destruct (m !! x) as [c|]; [|done].
      cbn in *. f_equal. by apply IH.
    + by rewrite lookup_alter_ne.
Qed.

(** A removal creates nothing. *)
Lemma walk_unlink_None p q n : walk q n = None → walk q (unlink p n) = None.
Proof.
  intros H. destruct (path_cases p q) as [[r ->]|[(y & r & ->)|Hd]].
  - destruct p as [|x p]; [done|]. apply walk_unlink_below.
  - by rewrite walk_unlink_above, H.
  - by rewrite walk_unlink_diverge.
Qed.

(** *** Looking up after putting a subtree in place *)

Lemma walk_graft_below p q v n n' :
  graft p v n = Some n' → walk (p ++ q) n' = walk q v.
Proof.
  revert n n'. induction p as [|x p IH]; intros n n' H.
  - by injection H as ->.
  - destruct n as [b|m]; [done|]. cbn in H.
    destruct (graft p v (default (Dir ∅) (m !! x))) as [c|] eqn:Hc; [|done].
    injection H as <-. cbn. rewrite lookup_insert_eq. cbn. by eapply IH.
Qed.

Lemma walk_graft_self p v n n' : graft p v n = Some n' → walk p n' = Some v.
Proof.
  intros H. rewrite <-(app_nil_r p). by rewrite (walk_graft_below _ _ _ _ _ H).
Qed.

Lemma walk_graft_diverge p q v n n' :
  graft p v n = Some n' → diverge p q → walk q n' = walk q n.
Proof.
  revert q n n'. induction p as [|x p IH]; intros q n n' H Hd.
  { by apply diverge_nil_l in Hd. }
  destruct q as [|y q]; [by apply diverge_nil_r in Hd|].
  destruct n as [b|m]; [done|]. cbn in H.
  destruct (graft p v (default (Dir ∅) (m !! x))) as [c|] eqn:Hc; [|done].
  injection H as <-. cbn. apply diverge_cons in Hd.
  destruct (decide (x = y)) as [<-|Hxy].
  - destruct Hd as [?|Hd]; [done|]. rewrite lookup_insert_eq. cbn.
    rewrite (IH _ _ _ Hc Hd). destruct (m !! x) as [c0|]; [done|].
    destruct q; [by apply diverge_nil_r in Hd|]. cbn. by rewrite lookup_empty.
  - by rewrite lookup_insert_ne.
Qed.

Lemma walk_graft_above p q v n n' c :
  walk p n = Some c → graft (p ++ q) v n = Some n' →
  ∃ c', graft q v c = Some c' ∧ walk p n' = Some c'.
Proof.
  revert n n' c. induction p as [|x p IH]; intros n n' c Hw H.
  - injection Hw as ->. eauto.
  - destruct n as [b|m]; [done|]. cbn in Hw, H.
    destruct (m !! x) as [c0|] eqn:Hx; [|done]. cbn in Hw, H.
    destruct (graft (p ++ q) v c0) as [c1|] eqn:Hc; [|done].
    injection H as <-. destruct (IH _ _ _ Hw Hc) as (c' & ? & ?).
    exists c'. split; [done|]. cbn. by rewrite lookup_insert_eq.
Qed.

(** A directory put in place at a path that did not exist is there alone
    with its content; everything that was beside it stays. *)
Lemma graft_app p q v n c c' :
  walk p n = Some c → graft q v c = Some c' →
  ∃ n', graft (p ++ q) v n = Some n' ∧ walk p n' = Some c'.
Proof.
  revert n c. induction p as [|x p IH]; intros n c Hw H.
  - injection Hw as ->. eauto.
  - destruct n as [b|m]; [done|]. cbn in Hw.
    destruct (m !! x) as [c0|] eqn:Hx; [|done]. cbn in Hw.
    destruct (IH _ _ Hw H) as (n1 & Hn1 & Hw1).
    exists (Dir (<[x := n1]> m)). cbn. rewrite Hx. cbn. rewrite Hn1. cbn.
    split; [done|]. by rewrite lookup_insert_eq.
Qed.

(** Removing what was put in place, and all of it: the result is the same
    as removing it from the tree before. *)
Lemma unlink_graft p x q v n n' m :
  walk p n = Some (Dir m) →
  graft (p ++ x :: q) v n = Some n' →
  unlink (p ++ [x]) n' = unlink (p ++ [x]) n.
Proof.
  revert n n' m. induction p as [|z p IH]; intros n n' m Hw H.
  - injection Hw as ->. cbn in H.
    destruct (graft q v (default (Dir ∅) (m !! x))) as [c|]; [|done].
    injection H as <-. cbn. by rewrite delete_insert_eq.
  - destruct n as [b|m0]; [done|]. cbn in Hw, H.
    destruct (m0 !! z) as [c0|] eqn:Hz; [|done]. cbn in Hw, H.
    destruct (graft (p ++ x :: q) v c0) as [c1|] eqn:Hc; [|done].
    injection H as <-.
    change ((z :: p) ++ [x]) with (z :: (p ++ [x])).
    rewrite !unlink_cons by (by destruct p).
    f_equal. rewrite alter_insert_eq, (IH _ _ _ Hw Hc).
    apply map_eq. intros k. destruct (decide (z = k)) as [<-|Hk].
    + by rewrite lookup_insert_eq, lookup_alter_eq, Hz.
    + by rewrite lookup_insert_ne, lookup_alter_ne.
Qed.

(** *** The topmost entry that a creation adds *)

Lemma fresh_prefix_app p q n c :
  walk p n = Some c → fresh_prefix (p ++ q) n = (p ++.) <$> fresh_prefix q c.
Proof.
  revert n. induction p as [|x p IH]; intros n Hw.
  - injection Hw as ->. cbn. by destruct (fresh_prefix q c).
  - destruct n as [b|m]; [done|]. cbn in Hw |- *.
    destruct (m !! x) as [c0|]; [|done]. cbn in Hw.
    rewrite (IH _ Hw). by destruct (fresh_prefix q c).
Qed.

End tree_facts.

(** ** Paths as the program writes them *)

(** A [pathlib.Path] is anchored (it starts at a drive and root) or not.  An
    unanchored path is read from the working directory of the process. *)
Inductive Path : Type :=
  | Abs (parts : path)
  | Rel (parts : path).

Definition parts (P : Path) : path :=
  match P with Abs ps => ps | Rel ps => ps end.

(** [P / name]: the path of the entry [name] of [P]. *)
Definition truediv (P : Path) (name : string) : Path :=
  match P with
  | Abs ps => Abs (ps ++ [name])
  | Rel ps => Rel (ps ++ [name])
  end.

Declare Scope Path_scope.
Delimit Scope Path_scope with Path.
Bind Scope Path_scope with Path.
Infix "/" := truediv : Path_scope.

(** The separator of the platform the source path is written for. *)
Definition sep : string := String (Ascii.ascii_of_nat 92) EmptyString.

(** [str(P)], as an f-string renders a path: the parts joined by [sep]. *)
Definition str (P : Path) : string := String.concat sep (parts P).

(** ** Processes: state, exceptions, and what a run leaves behind *)

(** The state the script works on: its working directory and the tree. *)
Record world : Type := World { cwd : path; root : node }.

Definition set_root (w : world) (n : node) : world := World (cwd w) n.

(** The exceptions of the library calls.  [Error] is [shutil.Error], raised
    by a copy that could not copy everything; [OSError errno] stands for
    every refusal of the operating system that the tree does not explain
    (permission denied, disk full, a path too long). *)
Inductive exn : Type :=
  | FileNotFoundError
  | NotADirectoryError
  | FileExistsError
  | Error
  | OSError (errno : nat).

(** The two calls that change the tree. *)
Inductive call : Type :=
  | Rmtree (P : Path)
  | Copytree (src dst : Path).

(** What a run leaves on record: each call with the exception it raised, if
    any, and each line written to standard output. *)
Inductive event : Type :=
  | Called (c : call) (raised : option exn)
  | Printed (line : string).

(** What the tree does not decide is decided by the environment: whether
    the operating system refuses a call ([fault]), and what a call that
    fails midway leaves at the place it was working on ([residue]). *)
Record environment : Type := Environment {
  fault : call → world → option nat;
  residue : call → world → option node
}.

(** The environment that never refuses anything. *)
Definition quiet : environment :=
  {| fault := λ _ _, None; residue := λ _ _, None |}.

Inductive result (A : Type) : Type :=
  | Ok (a : A)
  | Raise (e : exn).
Arguments Ok {A} a.
Arguments Raise {A} e.

Record run (A : Type) : Type := Run {
  res : result A;
  final : world;
  log : list event
}.
Arguments Run {A} res final log.
Arguments res {A} r.
Arguments final {A} r.
Arguments log {A} r.

(** A computation starts in a world and runs to a result.  An exception is
    never caught: the computations after it do not run. *)
Definition io (A : Type) : Type := world → run A.

#[export] Instance io_ret : MRet io := λ A a w, Run (Ok a) w [].

#[export] Instance io_bind : MBind io := λ A B k m w,
  let r := m w in
  match res r with
  | Ok a => let r' := k a (final r) in Run (res r') (final r') (log r ++ log r')
  | Raise e => Run (Raise e) (final r) (log r)
  end.

(** The lines a run wrote to standard output, in order. *)
Definition stdout (l : list event) : list string :=
  omap (λ ev, match ev with Printed line => Some line | Called _ _ => None end) l.

(** The calls of a run that raised. *)
Definition failures (l : list event) : list (call * exn) :=
  omap (λ ev, match ev with Called c (Some e) => Some (c, e) | _ => None end) l.

(** The exit status of the interpreter: 1 when an exception reaches the top. *)
Definition exit_status {A} (r : run A) : nat :=
  match res r with Ok _ => 0 | Raise _ => 1 end.

(** ** The library calls *)

Section calls.
Context (E : environment).

(** Where a path leads.  An unanchored path leads somewhere only while the
    working directory is a directory of the tree. *)
Definition resolve (w : world) (P : Path) : option path :=
  match P with
  | Abs ps => Some ps
  | Rel ps =>
      match walk (cwd w) (root w) with
      | Some (Dir _) => Some (cwd w ++ ps)
      | _ => None
      end
  end.

Definition stat (w : world) (P : Path) : option node :=
  resolve w P ≫= λ p, walk p (root w).

(** [P.exists()] *)
Definition exists_ (P : Path) : io bool := λ w,
  Run (Ok (bool_decide (is_Some (stat w P)))) w [].

Definition raised {A} (c : call) (e : exn) (w : world) : run A :=
  Run (Raise e) w [Called c (Some e)].

Definition returned (c : call) (w : world) : run unit :=
  Run (Ok ()) w [Called c None].

(** What a call that failed midway leaves at [f]: either nothing new, or
    some tree in place of what was there. *)
Definition leave (f : path) (j : option node) (n : node) : node :=
  match j with
  | None => n
  | Some v => default n (graft f v n)
  end.

(** [shutil.rmtree(P)]: [P] must lead to a directory; it is removed with all
    its content. *)
Definition rmtree (P : Path) : io unit := λ w,
  let c := Rmtree P in
  match resolve w P with
  | None => raised c FileNotFoundError w
  | Some p =>
      match walk p (root w) with
      | None => raised c FileNotFoundError w
      | Some (File _) => raised c NotADirectoryError w
      | Some (Dir _) =>
          match fault E c w with
          | Some errno =>
              raised c (OSError errno)
                (set_root w (leave p (residue E c w) (root w)))
          | None => returned c (set_root w (unlink p (root w)))
          end
      end
  end.

(** A copy runs into itself when its destination lies inside the source,
    below an entry that the listing of the source contains: [copytree] then
    descends into what it is creating, for ever. *)
Definition nests (s d : path) (es : gmap string node) : bool :=
  match relative_to s d with
  | Some (x :: _) => bool_decide (is_Some (es !! x))
  | _ => false
  end.

(** [shutil.copytree(src, dst)], in the order of the library's code: list
    [src] ([os.scandir]), which must be a directory; create [dst] and its
    missing parents ([os.makedirs]), which fails when [dst] exists; copy the
    listed entries into it. *)
Definition copytree (src dst : Path) : io unit := λ w,
  let c := Copytree src dst in
  match resolve w src with
  | None => raised c FileNotFoundError w
  | Some s =>
      match walk s (root w) with
      | None => raised c FileNotFoundError w
      | Some (File _) => raised c NotADirectoryError w
      | Some (Dir es) =>
          match resolve w dst with
          | None => raised c FileNotFoundError w
          | Some d =>
              match walk d (root w), fresh_prefix d (root w) with
              | Some _, _ => raised c FileExistsError w
              | None, None => raised c NotADirectoryError w
              | None, Some f =>
                  let broken := set_root w (leave f (residue E c w) (root w)) in
                  if nests s d es then raised c Error broken
                  else
                    match fault E c w, graft d (copy_node (Dir es)) (root w) with
                    | Some errno, _ => raised c (OSError errno) broken
                    | None, None => raised c NotADirectoryError w
                    | None, Some n => returned c (set_root w n)
                    end
              end
          end
      end
  end.

End calls.

(** [print(line)]: one line on standard output. *)
Definition print (line : string) : io unit := λ w, Run (Ok ()) w [Printed line].

(** ** The script *)

(** The two constants of the file.  The source is written as a Windows
    path with a drive: it is anchored, and its parts are the drive and the
    names between the backslashes.  The destination is a bare name: it is
    read from the working directory of the process. *)
Definition SOURCE_DIR : Path :=
  Abs ["C:"; "Users"; "emili"; "Downloads"; "skills"; "ui-ux-pro-max-skill";
       "src"; "ui-ux-pro-max"].

Definition DEST_DIR : Path := Rel [".skill"].

Section script.
Context (E : environment).
#[local] Abbreviation rmtree := (rmtree E).
#[local] Abbreviation copytree := (copytree E).

Definition copy_skill : io unit :=
  b ← exists_ DEST_DIR;
  (if b : bool then rmtree DEST_DIR else mret ());;
  let scripts_src := (SOURCE_DIR / "scripts")%Path in
  let scripts_dest := (DEST_DIR / "scripts")%Path in
  copytree scripts_src scripts_dest;;
  print ("Copied scripts to " +:+ str scripts_dest);;
  let data_src := (SOURCE_DIR / "data")%Path in
  let data_dest := (DEST_DIR / "data")%Path in
  copytree data_src data_dest;;
  print ("Copied data to " +:+ str data_dest).

(** The module run as a program: the guard at the end of the file calls
    [copy_skill], with no argument. *)
Definition main : io unit := copy_skill.

End script.

Arguments exists_ : simpl never.
Arguments rmtree : simpl never.
Arguments copytree : simpl never.
Arguments print : simpl never.

(** ** What the library calls do *)

Section call_facts.
Context (E : environment).
Implicit Types (w : world) (P : Path) (p q : path) (e : exn).

(** Where the destination directory of a run is. *)
Definition dest_of (w : world) : path := cwd w ++ parts DEST_DIR.

Lemma resolve_Abs w ps : resolve w (Abs ps) = Some ps.
Proof. done. Qed.

Lemma resolve_Rel w ps p :
  resolve w (Rel ps) = Some p ↔
  (∃ m, walk (cwd w) (root w) = Some (Dir m)) ∧ p = cwd w ++ ps.
Proof.
  cbn. destruct (walk (cwd w) (root w)) as [[b|m]|]; split.
  all: try (intros [= <-]; by eauto).
  all: try (by intros [[m' [=]] _]).
  by intros [_ ->].
Qed.

Lemma stat_Abs w ps : stat w (Abs ps) = walk ps (root w).
Proof. done. Qed.

(** Nothing is found below a working directory that is no directory, so
    an unanchored path exists exactly when the tree has an entry there. *)
Lemma stat_Rel w x ps : stat w (Rel (x :: ps)) = walk (cwd w ++ x :: ps) (root w).
Proof.
  unfold stat. cbn. rewrite walk_app.
  destruct (walk (cwd w) (root w)) as [[b|m]|] eqn:Hc; cbn; [done| |done].
  by rewrite walk_app, Hc.
Qed.

(** *** [rmtree] *)

Lemma rmtree_Ok P w :
  res (rmtree E P w) = Ok () →
  ∃ p m, resolve w P = Some p ∧ walk p (root w) = Some (Dir m) ∧
    rmtree E P w = returned (Rmtree P) (set_root w (unlink p (root w))).
Proof.
  unfold rmtree. destruct (resolve w P) as [p|]; [|done].
  destruct (walk p (root w)) as [[b|m]|] eqn:Hp; [done| |done].
  destruct (fault E (Rmtree P) w); [done|]. intros _. by exists p, m.
Qed.

Lemma rmtree_Raise P w e :
  res (rmtree E P w) = Raise e →
  e ≠ FileExistsError ∧
  log (rmtree E P w) = [Called (Rmtree P) (Some e)] ∧
  (final (rmtree E P w) = w ∨
   ∃ p m j, resolve w P = Some p ∧ walk p (root w) = Some (Dir m) ∧
     final (rmtree E P w) = set_root w (leave p j (root w))).
Proof.
  unfold rmtree. destruct (resolve w P) as [p|] eqn:HP.
  2:{ intros [= <-]. split; [done|]. split; [done|]. by left. }
  destruct (walk p (root w)) as [[b|m]|] eqn:Hp.
  - intros [= <-]. split; [done|]. split; [done|]. by left.
  - destruct (fault E (Rmtree P) w) as [errno|]; [|done].
    intros [= <-]. split; [done|]. split; [done|]. right.
    by exists p, m, (residue E (Rmtree P) w).
  - intros [= <-]. split; [done|]. split; [done|]. by left.
Qed.

(** The delete of something that exists does not raise for a missing path. *)
Lemma rmtree_Raise_found P w e :
  is_Some (stat w P) → res (rmtree E P w) = Raise e → e ≠ FileNotFoundError.
Proof.
  unfold stat, rmtree. destruct (resolve w P) as [p|]; cbn [mbind option_bind].
  2:{ by intros [? [=]]. }
  destruct (walk p (root w)) as [[b|m]|].
  - by intros _ [= <-].
  - destruct (fault E (Rmtree P) w); [|done]. by intros _ [= <-].
  - by intros [? [=]].
Qed.

(** *** [copytree] *)

Lemma copytree_Ok S D w :
  res (copytree E S D w) = Ok () →
  ∃ s d es n, resolve w S = Some s ∧ walk s (root w) = Some (Dir es) ∧
    resolve w D = Some d ∧ walk d (root w) = None ∧
    nests s d es = false ∧
    graft d (Dir es) (root w) = Some n ∧
    copytree E S D w = returned (Copytree S D) (set_root w n).
Proof.
  unfold copytree. destruct (resolve w S) as [s|]; [|done].
  destruct (walk s (root w)) as [[b|es]|] eqn:Hs; [done| |done].
  destruct (resolve w D) as [d|]; [|done].
  destruct (walk d (root w)) eqn:Hd; [done|].
  destruct (fresh_prefix d (root w)) as [f|]; [|done].
  destruct (nests s d es) eqn:Hnest; [done|].
  destruct (fault E (Copytree S D) w); [done|].
  rewrite copy_node_id.
  destruct (graft d (Dir es) (root w)) as [n|] eqn:Hn; [|done].
  intros _. by exists s, d, es, n.
Qed.

Lemma copytree_Raise S D w e :
  res (copytree E S D w) = Raise e →
  log (copytree E S D w) = [Called (Copytree S D) (Some e)] ∧
  (e = FileExistsError → is_Some (stat w D)) ∧
  (final (copytree E S D w) = w ∨
   ∃ d f j, resolve w D = Some d ∧ fresh_prefix d (root w) = Some f ∧
     final (copytree E S D w) = set_root w (leave f j (root w))).
Proof.
  unfold copytree. destruct (resolve w S) as [s|] eqn:HS.
  2:{ intros [= <-]. split; [done|]. split; [done|]. by left. }
  destruct (walk s (root w)) as [[b|es]|] eqn:Hs.
  1,3: intros [= <-]; split; [done|]; split; [done|]; by left.
  unfold stat. destruct (resolve w D) as [d|] eqn:HD.
  2:{ intros [= <-]. split; [done|]. split; [done|]. by left. }
  cbn [mbind option_bind]. destruct (walk d (root w)) as [c|] eqn:Hd.
  { intros [= <-]. split; [done|]. split; [by eauto|]. by left. }
  destruct (fresh_prefix d (root w)) as [f|] eqn:Hf.
  2:{ intros [= <-]. split; [done|]. split; [done|]. by left. }
  destruct (nests s d es).
  { intros [= <-]. split; [done|]. split; [done|]. right.
    by exists d, f, (residue E (Copytree S D) w). }
  destruct (fault E (Copytree S D) w) as [errno|].
  { intros [= <-]. split; [done|]. split; [done|]. right.
    by exists d, f, (residue E (Copytree S D) w). }
  destruct (graft d (copy_node (Dir es)) (root w)); [done|].
  intros [= <-]. split; [done|]. split; [done|]. by left.
Qed.

(** A copy from a source that is not there raises at once and leaves the
    tree as it was. *)
Lemma copytree_missing S D w :
  stat w S = None →
  copytree E S D w = raised (Copytree S D) FileNotFoundError w.
Proof.
  unfold stat, copytree. destruct (resolve w S) as [s|]; [|done].
  cbn. by intros ->.
Qed.

End call_facts.

(** ** Sequencing *)

Section sequencing.
Context {A B : Type}.
Implicit Types (m : io A) (k : A → io B) (w : world).

Lemma bind_Ok m k w a :
  res (m w) = Ok a →
  (m ≫= k) w =
    Run (res (k a (final (m w)))) (final (k a (final (m w))))
        (log (m w) ++ log (k a (final (m w)))).
Proof. unfold mbind, io_bind. by intros ->. Qed.

Lemma bind_Raise m k w e :
  res (m w) = Raise e → (m ≫= k) w = Run (Raise e) (final (m w)) (log (m w)).
Proof. unfold mbind, io_bind. by intros ->. Qed.

Lemma run_eta (r : run A) : Run (res r) (final r) (log r) = r.
Proof. by destruct r. Qed.

End sequencing.

Lemma bind_assoc {A B C} (m : io A) (f : A → io B) (g : B → io C) w :
  ((m ≫= f) ≫= g) w = (m ≫= λ a, f a ≫= g) w.
Proof.
  unfold mbind, io_bind. destruct (m w) as [[a|e] w1 l1]; cbn [res final log]; [|done].
  destruct (f a w1) as [[b|e] w2 l2]; cbn [res final log]; [|done].
  by rewrite app_assoc.
Qed.

Lemma stdout_app l1 l2 : stdout (l1 ++ l2) = stdout l1 ++ stdout l2.
Proof. apply omap_app. Qed.

Lemma failures_app l1 l2 : failures (l1 ++ l2) = failures l1 ++ failures l2.
Proof. apply omap_app. Qed.

Lemma elem_of_failures c e l : (c, e) ∈ failures l ↔ Called c (Some e) ∈ l.
Proof.
  unfold failures. rewrite list_elem_of_omap. split.
  - intros ([c' [e'|]|line] & Hin & Heq); simplify_eq. done.
  - intros Hin. by exists (Called c (Some e)).
Qed.

(** ** Where the script works *)

(** The places the script names: the two source directories are fixed; the
    destination and the two copies are below the working directory. *)
Definition scripts_src : path := parts (SOURCE_DIR / "scripts").
Definition data_src : path := parts (SOURCE_DIR / "data").

Section places.
Implicit Types (p q s t : path) (x : string).

Lemma prefix_snoc_inv p x s :
  s `prefix_of` p ++ [x] → s = p ++ [x] ∨ s `prefix_of` p.
Proof.
  intros [k Hk]. destruct k as [|y k _] using rev_ind.
  - left. by rewrite app_nil_r in Hk.
  - right. rewrite app_assoc in Hk. apply app_inj_tail in Hk as [-> _].
    by apply prefix_app_r.
Qed.

(** A path through an entry called [x] is in line with a path [s] that has
    no such name only if [s] stops above that entry. *)
Lemma diverge_through p x t s q :
  x ∉ s → ¬ s `prefix_of` p → diverge (p ++ x :: t) (s ++ q).
Proof.
  intros Hx Hs.
  assert (¬ p ++ [x] `prefix_of` s) as H1.
  { intros [k ->]. apply Hx. rewrite !elem_of_app, list_elem_of_singleton. auto. }
  assert (¬ s `prefix_of` p ++ [x]) as H2.
  { intros [->|?]%prefix_snoc_inv; [|done].
    apply Hx. rewrite elem_of_app, list_elem_of_singleton. auto. }
  assert (p ++ [x] `prefix_of` p ++ x :: t) as H3.
  { exists t. by rewrite <-app_assoc. }
  split; intros H.
  - destruct (prefix_weak_total (p ++ [x]) s (s ++ q)); auto.
    + by etrans.
    + by apply prefix_app_r.
  - destruct (prefix_weak_total (p ++ [x]) s (p ++ x :: t)); auto.
    etrans; [|exact H]. by apply prefix_app_r.
Qed.

(** Two entries of one directory diverge, with all that is below them. *)
Lemma diverge_siblings p x y t q : x ≠ y → diverge (p ++ x :: t) (p ++ y :: q).
Proof.
  intros Hxy. induction p as [|z p IH]; cbn.
  - apply diverge_cons. by left.
  - apply diverge_cons. by right.
Qed.

Lemma skill_not_in_scripts_src : ".skill" ∉ scripts_src.
Proof. apply (bool_decide_unpack _). by vm_compute. Qed.

Lemma skill_not_in_data_src : ".skill" ∉ data_src.
Proof. apply (bool_decide_unpack _). by vm_compute. Qed.

Lemma skill_not_in_SOURCE_DIR : ".skill" ∉ parts SOURCE_DIR.
Proof. apply (bool_decide_unpack _). by vm_compute. Qed.

End places.


(** ** The script, step by step *)

(** The calls of the script and the lines it prints. *)
Definition remove_dest : call := Rmtree DEST_DIR.
Definition copy_scripts : call :=
  Copytree (SOURCE_DIR / "scripts") (DEST_DIR / "scripts").
Definition copy_data : call :=
  Copytree (SOURCE_DIR / "data") (DEST_DIR / "data").
Definition scripts_line : string :=
  "Copied scripts to " +:+ str (DEST_DIR / "scripts").
Definition data_line : string :=
  "Copied data to " +:+ str (DEST_DIR / "data").

(** Where the two copies go. *)
Definition scripts_dest (w : world) : path := dest_of w ++ ["scripts"].
Definition data_dest (w : world) : path := dest_of w ++ ["data"].

Section script_steps.
Context (E : environment).
Implicit Types (w : world) (e : exn).

(** The script is a reset of the destination followed by the two copies. *)
Definition reset_destination : io unit :=
  b ← exists_ DEST_DIR;
  if b : bool then rmtree E DEST_DIR else mret ().

Definition copy_subtrees : io unit :=
  copytree E (SOURCE_DIR / "scripts") (DEST_DIR / "scripts");;
  print scripts_line;;
  copytree E (SOURCE_DIR / "data") (DEST_DIR / "data");;
  print data_line.

Lemma copy_skill_phases w :
  copy_skill E w = (reset_destination ≫= λ _, copy_subtrees) w.
Proof. unfold reset_destination. by rewrite bind_assoc. Qed.

Lemma dest_of_cons w : dest_of w = cwd w ++ [".skill"].
Proof. done. Qed.

Lemma stat_DEST_DIR w : stat w DEST_DIR = walk (dest_of w) (root w).
Proof. exact (stat_Rel w ".skill" []). Qed.

Lemma resolve_DEST_DIR w p :
  resolve w DEST_DIR = Some p → p = dest_of w.
Proof. intros Hp. by apply (resolve_Rel w [".skill"]) in Hp as [_ ->]. Qed.

Lemma exists_bind {B} P (k : bool → io B) w :
  (exists_ P ≫= k) w = k (bool_decide (is_Some (stat w P))) w.
Proof. unfold mbind, io_bind, exists_. cbn [res final log app]. apply run_eta. Qed.

(** *** The reset *)

Lemma reset_fresh w :
  walk (dest_of w) (root w) = None → reset_destination w = Run (Ok ()) w [].
Proof.
  intros H. unfold reset_destination. rewrite exists_bind, stat_DEST_DIR, H.
  by rewrite bool_decide_eq_false_2 by (by intros [? [=]]).
Qed.

Lemma reset_present w :
  is_Some (walk (dest_of w) (root w)) →
  reset_destination w = rmtree E DEST_DIR w.
Proof.
  intros H. unfold reset_destination. rewrite exists_bind, stat_DEST_DIR.
  by rewrite bool_decide_eq_true_2.
Qed.

Lemma walk_unlink_dest w : walk (dest_of w) (unlink (dest_of w) (root w)) = None.
Proof.
  rewrite dest_of_cons.
  destruct (cwd w ++ [".skill"]) as [|x p] eqn:Hp; [by destruct (cwd w)|].
  apply walk_unlink_self.
Qed.

Lemma reset_Ok w :
  res (reset_destination w) = Ok () →
  final (reset_destination w) = set_root w (unlink (dest_of w) (root w)) ∧
  (log (reset_destination w) = [] ∨
   log (reset_destination w) = [Called remove_dest None]).
Proof.
  intros Hok. destruct (walk (dest_of w) (root w)) as [c|] eqn:Hd.
  - rewrite reset_present in Hok |- * by eauto.
    destruct (rmtree_Ok E _ _ Hok) as (p & m & Hp & _ & ->).
    apply resolve_DEST_DIR in Hp as ->. split; [done|by right].
  - rewrite reset_fresh, unlink_absent by done. split; [by destruct w|by left].
Qed.

Lemma reset_Raise w e :
  res (reset_destination w) = Raise e →
  reset_destination w = rmtree E DEST_DIR w ∧
  is_Some (walk (dest_of w) (root w)) ∧
  e ≠ FileExistsError ∧
  log (reset_destination w) = [Called remove_dest (Some e)].
Proof.
  intros Hr. destruct (walk (dest_of w) (root w)) as [c|] eqn:Hd.
  - rewrite reset_present in Hr |- * by eauto.
    destruct (rmtree_Raise E _ _ _ Hr) as (? & ? & _). eauto.
  - by rewrite reset_fresh in Hr.
Qed.

(** *** The two copies *)

Lemma print_bind {B} line (k : () → io B) w :
  (print line ≫= k) w =
    Run (res (k () w)) (final (k () w)) (Printed line :: log (k () w)).
Proof. done. Qed.

(** How far the copies get: the first raises, or it returns and the second
    raises, or both return. *)
Inductive progress (w : world) : run unit → Prop :=
  | stops_at_scripts e :
      res (copytree E (SOURCE_DIR / "scripts") (DEST_DIR / "scripts") w) = Raise e →
      progress w
        (Run (Raise e)
           (final (copytree E (SOURCE_DIR / "scripts") (DEST_DIR / "scripts") w))
           [Called copy_scripts (Some e)])
  | stops_at_data w1 e :
      copytree E (SOURCE_DIR / "scripts") (DEST_DIR / "scripts") w
        = returned copy_scripts w1 →
      res (copytree E (SOURCE_DIR / "data") (DEST_DIR / "data") w1) = Raise e →
      progress w
        (Run (Raise e)
           (final (copytree E (SOURCE_DIR / "data") (DEST_DIR / "data") w1))
           [Called copy_scripts None; Printed scripts_line;
            Called copy_data (Some e)])
  | completes w1 w2 :
      copytree E (SOURCE_DIR / "scripts") (DEST_DIR / "scripts") w
        = returned copy_scripts w1 →
      copytree E (SOURCE_DIR / "data") (DEST_DIR / "data") w1
        = returned copy_data w2 →
      progress w
        (Run (Ok ()) w2
           [Called copy_scripts None; Printed scripts_line;
            Called copy_data None; Printed data_line]).

(** The script after its reset: the two copies, from the tree without the
    destination. *)
Lemma copy_skill_after_reset w :
  res (reset_destination w) = Ok () →
  copy_skill E w =
    Run (res (copy_subtrees (set_root w (unlink (dest_of w) (root w)))))
        (final (copy_subtrees (set_root w (unlink (dest_of w) (root w)))))
        (log (reset_destination w)
           ++ log (copy_subtrees (set_root w (unlink (dest_of w) (root w))))).
Proof.
  intros Hok. rewrite copy_skill_phases, (bind_Ok _ _ _ _ Hok). cbv beta.
  by destruct (reset_Ok _ Hok) as [-> _].
Qed.

Lemma copy_skill_reset_raised w e :
  res (reset_destination w) = Raise e →
  copy_skill E w
    = Run (Raise e) (final (rmtree E DEST_DIR w)) [Called remove_dest (Some e)].
Proof.
  intros Hr. rewrite copy_skill_phases, (bind_Raise _ _ _ _ Hr).
  by destruct (reset_Raise _ _ Hr) as (-> & _ & _ & ->).
Qed.

Lemma copy_skill_fresh w :
  walk (dest_of w) (root w) = None → copy_skill E w = copy_subtrees w.
Proof.
  intros H. rewrite copy_skill_phases.
  unfold mbind at 1, io_bind at 1. rewrite (reset_fresh _ H).
  cbn [res final log app]. apply run_eta.
Qed.

Lemma copy_subtrees_progress w : progress w (copy_subtrees w).
Proof.
  unfold copy_subtrees.
  destruct (res (copytree E (SOURCE_DIR / "scripts") (DEST_DIR / "scripts") w))
    as [[]|e] eqn:H1.
  2:{ rewrite (bind_Raise _ _ _ _ H1).
      destruct (copytree_Raise E _ _ _ _ H1) as (-> & _). by constructor. }
  destruct (copytree_Ok E _ _ _ H1) as (s & d & es & n & _ & _ & _ & _ & _ & _ & H1').
  rewrite (bind_Ok _ _ _ _ H1), H1'. cbn [res final log returned].
  set (w1 := set_root w n). rewrite print_bind.
  destruct (res (copytree E (SOURCE_DIR / "data") (DEST_DIR / "data") w1))
    as [[]|e] eqn:H2.
  2:{ rewrite (bind_Raise _ _ _ _ H2). cbn [res final log app].
      destruct (copytree_Raise E _ _ _ _ H2) as (-> & _).
      by eapply stops_at_data. }
  destruct (copytree_Ok E _ _ _ H2) as (s' & d' & ed & n' & _ & _ & _ & _ & _ & _ & H2').
  rewrite (bind_Ok _ _ _ _ H2), H2'. cbn [res final log returned app print].
  by eapply completes.
Qed.

End script_steps.

(** ** A run that completes *)

Section completed_runs.
Context (E : environment).
Implicit Types (w : world) (x y z : string).

Lemma dest_of_snoc w x : dest_of w ++ [x] = cwd w ++ [".skill"; x].
Proof. unfold dest_of. by rewrite <-app_assoc. Qed.

(** One of the two copies, when it returns: the working directory and the
    source are directories, the copy did not exist, and it now holds the
    entries of the source. *)
Lemma copy_returned x w :
  res (copytree E (SOURCE_DIR / x) (DEST_DIR / x) w) = Ok () →
  ∃ mc es n,
    walk (cwd w) (root w) = Some (Dir mc) ∧
    walk (parts SOURCE_DIR ++ [x]) (root w) = Some (Dir es) ∧
    walk (dest_of w ++ [x]) (root w) = None ∧
    nests (parts SOURCE_DIR ++ [x]) (dest_of w ++ [x]) es = false ∧
    graft (dest_of w ++ [x]) (Dir es) (root w) = Some n ∧
    copytree E (SOURCE_DIR / x) (DEST_DIR / x) w
      = returned (Copytree (SOURCE_DIR / x) (DEST_DIR / x)) (set_root w n).
Proof.
  intros Hok.
  destruct (copytree_Ok E _ _ _ Hok)
    as (s & d & es & n & Hs & Hws & Hd & Hwd & Hnest & Hn & Heq).
  change (resolve w (SOURCE_DIR / x)) with (Some (parts SOURCE_DIR ++ [x])) in Hs.
  injection Hs as <-.
  apply (resolve_Rel w [".skill"; x]) in Hd as [[mc Hc] ->].
  exists mc, es, n. rewrite dest_of_snoc. by repeat split.
Qed.

(** A copy that returned did not run into itself: the working directory is
    not below an entry of the source. *)
Lemma nests_false_inv s x t w mc es :
  walk (cwd w) (root w) = Some (Dir mc) →
  walk s (root w) = Some (Dir es) →
  nests s (cwd w ++ x :: t) es = false →
  s `prefix_of` cwd w →
  cwd w = s ∧ es !! x = None.
Proof.
  intros Hc Hs Hnest [k Hk]. unfold nests in Hnest.
  rewrite Hk, <-app_assoc, relative_to_app in Hnest.
  destruct k as [|y k]; cbn [app] in Hnest.
  - rewrite app_nil_r in Hk. split; [done|].
    apply bool_decide_eq_false in Hnest.
    destruct (es !! x); [|done]. destruct Hnest. eauto.
  - exfalso. apply bool_decide_eq_false in Hnest. apply Hnest.
    rewrite Hk, walk_app, Hs in Hc. cbn [mbind option_bind walk] in Hc.
    destruct (es !! y); [eauto|done].
Qed.

(** A first entry put into a directory that did not exist: the directory is
    there with that entry alone. *)
Lemma walk_graft_fresh p z x vx n n1 mc :
  walk p n = Some (Dir mc) → mc !! z = None →
  graft (p ++ [z; x]) vx n = Some n1 →
  walk p n1 = Some (Dir (<[z := Dir {[x := vx]}]> mc)) ∧
  walk (p ++ [z]) n1 = Some (Dir {[x := vx]}).
Proof.
  intros Hp Hfresh H1.
  destruct (walk_graft_above _ _ _ _ _ _ Hp H1) as (c1 & Hc1 & Hp1).
  cbn in Hc1. rewrite Hfresh in Hc1. cbn in Hc1. rewrite ?lookup_empty in Hc1.
  cbn in Hc1. injection Hc1 as <-. rewrite ?insert_empty in Hp1.
  split; [done|].
  rewrite walk_app, Hp1. cbn. by rewrite lookup_insert_eq.
Qed.

Lemma walk_sibling_absent p z x y vx n1 :
  walk (p ++ [z]) n1 = Some (Dir {[x := vx]}) → x ≠ y →
  walk (p ++ [z; y]) n1 = None.
Proof.
  intros Hd Hxy. change [z; y] with ([z] ++ [y]).
  rewrite app_assoc, walk_app, Hd. cbn. by rewrite lookup_singleton_ne.
Qed.

(** Nothing is below a path that leads nowhere. *)
Lemma not_below_missing s p n c :
  walk s n = None → walk p n = Some c → ¬ s `prefix_of` p.
Proof. intros Hs Hp [k ->]. by rewrite walk_app, Hs in Hp. Qed.

(** The destination after both copies: a directory with exactly the two
    entries. *)
Lemma walk_two_grafts p z x y vx vy n n1 n2 mc :
  walk p n = Some (Dir mc) → mc !! z = None →
  graft (p ++ [z; x]) vx n = Some n1 →
  graft (p ++ [z; y]) vy n1 = Some n2 →
  walk p n1 = Some (Dir (<[z := Dir {[x := vx]}]> mc)) ∧
  walk (p ++ [z]) n2 = Some (Dir (<[y := vy]> {[x := vx]})).
Proof.
  intros Hp Hfresh H1 H2.
  destruct (walk_graft_fresh _ _ _ _ _ _ _ Hp Hfresh H1) as [Hp1 Hd1].
  split; [done|].
  change [z; y] with ([z] ++ [y]) in H2. rewrite app_assoc in H2.
  destruct (walk_graft_above _ _ _ _ _ _ Hd1 H2) as (c2 & Hc2 & Hp2).
  cbn in Hc2. by injection Hc2 as <-.
Qed.

(** What a run that completes has done, seen from the tree [r0] that the
    reset leaves: the working directory is a directory of it, without the
    destination; the two sources are directories of it; the working directory
    is not inside the [data] source, and inside the [scripts] source only as
    that directory itself; the final tree is [r0] with the two copies. *)
Lemma copy_skill_Ok w :
  res (copy_skill E w) = Ok () →
  ∃ mc es ed n1 n2 pre,
    let r0 := unlink (dest_of w) (root w) in
    final (reset_destination E w) = set_root w r0 ∧
    walk (cwd w) r0 = Some (Dir mc) ∧ mc !! ".skill" = None ∧
    walk scripts_src r0 = Some (Dir es) ∧
    walk data_src r0 = Some (Dir ed) ∧
    (scripts_src `prefix_of` cwd w → cwd w = scripts_src) ∧
    ¬ data_src `prefix_of` cwd w ∧
    graft (scripts_dest w) (Dir es) r0 = Some n1 ∧
    graft (data_dest w) (Dir ed) n1 = Some n2 ∧
    copy_subtrees E (set_root w r0)
      = Run (Ok ()) (set_root w n2)
          [Called copy_scripts None; Printed scripts_line;
           Called copy_data None; Printed data_line] ∧
    final (copy_skill E w) = set_root w n2 ∧
    (pre = [] ∨ pre = [Called remove_dest None]) ∧
    log (copy_skill E w)
      = pre ++ [Called copy_scripts None; Printed scripts_line;
                Called copy_data None; Printed data_line].
Proof.
  rewrite copy_skill_phases.
  destruct (res (reset_destination E w)) as [[]|e] eqn:Hreset.
  2:{ by rewrite (bind_Raise _ _ _ _ Hreset). }
  rewrite (bind_Ok _ _ _ _ Hreset). cbv beta.
  destruct (reset_Ok E _ Hreset) as (Hw0 & Hpre).
  pose proof (walk_unlink_dest w) as Hfresh.
  rewrite Hw0. remember (unlink (dest_of w) (root w)) as r0 eqn:Hr0.
  remember (set_root w r0) as w0 eqn:Hw0'.
  assert (cwd w0 = cwd w ∧ root w0 = r0 ∧ dest_of w0 = dest_of w)
    as (Hcwd0 & Hroot0 & Hdest0) by (by subst w0).
  pose proof (copy_subtrees_progress E w0) as Hprog.
  remember (copy_subtrees E w0) as r eqn:Heq.
  destruct Hprog as [e H1|w1 e H1 H2|w1 w2 H1 H2];
    cbn [res final log]; try done.
  intros _.
  assert (res (copytree E (SOURCE_DIR / "scripts") (DEST_DIR / "scripts") w0)
          = Ok ()) as H1ok by (by rewrite H1).
  destruct (copy_returned _ _ H1ok)
    as (mc & es & n1 & Hc & Hs & Hsd & Hnest1 & Hn1 & Heq1).
  rewrite Heq1 in H1. injection H1 as <-.
  assert (res (copytree E (SOURCE_DIR / "data") (DEST_DIR / "data")
                 (set_root w0 n1)) = Ok ()) as H2ok by (by rewrite H2).
  destruct (copy_returned _ _ H2ok)
    as (mc1 & ed & n2 & Hc1 & Hd & Hdd & Hnest2 & Hn2 & Heq2).
  rewrite Heq2 in H2. injection H2 as <-.
  change (cwd (set_root w0 n1)) with (cwd w0) in *.
  change (root (set_root w0 n1)) with n1 in *.
  change (dest_of (set_root w0 n1)) with (dest_of w0) in *.
  change (set_root (set_root w0 n1) n2) with (set_root w0 n2) in *.
  rewrite Hdest0, ?Hcwd0, ?Hroot0 in *.
  (* the working directory holds no destination once the reset is done *)
  assert (mc !! ".skill" = None) as Hmc.
  { rewrite dest_of_cons, walk_app, Hc in Hfresh.
    cbn [mbind option_bind walk] in Hfresh.
    by destruct (mc !! ".skill"). }
  (* the working directory is not inside the data source *)
  assert (¬ data_src `prefix_of` cwd w) as Hdata.
  { intros Hin0. rewrite dest_of_snoc in Hnest2.
    destruct (nests_false_inv data_src ".skill" ["data"] (World (cwd w) n1)
                mc1 ed Hc1 Hd Hnest2 Hin0) as [Hcwd Hskill].
    change (cwd (World (cwd w) n1)) with (cwd w) in Hcwd.
    assert (walk (data_src ++ [".skill"; "scripts"]) n1 = Some (Dir es)) as Hin.
    { rewrite <-Hcwd, <-dest_of_snoc. by apply walk_graft_self in Hn1. }
    rewrite walk_app in Hin.
    change (walk data_src n1) with (walk (parts SOURCE_DIR ++ ["data"]) n1) in Hin.
    rewrite Hd in Hin. cbn [mbind option_bind walk] in Hin.
    by rewrite Hskill in Hin. }
  exists mc, es, ed, n1, n2, (log (reset_destination E w)).
  assert (set_root w0 n2 = set_root w n2) as Hfin by (by subst w0).
  cbv zeta. split_and!; try done.
  - (* the data source is the same before and after the first copy *)
    assert (diverge (scripts_dest w) data_src) as Hdiv.
    { unfold scripts_dest. rewrite dest_of_snoc, <-(app_nil_r data_src).
      apply diverge_through; [apply skill_not_in_data_src|done]. }
    rewrite <-Hd. symmetry. exact (walk_graft_diverge _ _ _ _ _ Hn1 Hdiv).
  - intros Hin0. rewrite dest_of_snoc in Hnest1.
    by destruct (nests_false_inv scripts_src ".skill" ["scripts"]
                   (World (cwd w) r0) mc es Hc Hs Hnest1 Hin0).
  - by rewrite <-Hw0', <-Heq, Hfin.
Qed.

End completed_runs.

(** ** The course of every run *)

Section courses.
Context (E : environment).
Implicit Types (w : world) (e : exn).

(** The tree that the reset leaves. *)
Definition cleared (w : world) : node := unlink (dest_of w) (root w).

(** A run takes one of four courses: the delete raises; or the reset
    returns (with or without a delete) and the [scripts] copy raises; or that
    copy returns and the [data] copy raises; or both copies return.  No copy
    raises [FileExistsError]. *)
Inductive course (w : world) : run unit → Prop :=
  | delete_raises e :
      is_Some (walk (dest_of w) (root w)) →
      res (rmtree E DEST_DIR w) = Raise e →
      e ≠ FileExistsError →
      course w
        (Run (Raise e) (final (rmtree E DEST_DIR w))
           [Called remove_dest (Some e)])
  | scripts_raises pre e :
      pre = [] ∨ pre = [Called remove_dest None] →
      res (copytree E (SOURCE_DIR / "scripts") (DEST_DIR / "scripts")
             (set_root w (cleared w))) = Raise e →
      e ≠ FileExistsError →
      course w
        (Run (Raise e)
           (final (copytree E (SOURCE_DIR / "scripts") (DEST_DIR / "scripts")
                     (set_root w (cleared w))))
           (pre ++ [Called copy_scripts (Some e)]))
  | data_raises pre mc es n1 e :
      pre = [] ∨ pre = [Called remove_dest None] →
      walk (cwd w) (cleared w) = Some (Dir mc) →
      walk scripts_src (cleared w) = Some (Dir es) →
      graft (scripts_dest w) (Dir es) (cleared w) = Some n1 →
      res (copytree E (SOURCE_DIR / "data") (DEST_DIR / "data")
             (set_root w n1)) = Raise e →
      e ≠ FileExistsError →
      course w
        (Run (Raise e)
           (final (copytree E (SOURCE_DIR / "data") (DEST_DIR / "data")
                     (set_root w n1)))
           (pre ++ [Called copy_scripts None; Printed scripts_line;
                    Called copy_data (Some e)]))
  | both_return pre mc es n1 ed n2 :
      pre = [] ∨ pre = [Called remove_dest None] →
      walk (cwd w) (cleared w) = Some (Dir mc) →
      walk scripts_src (cleared w) = Some (Dir es) →
      graft (scripts_dest w) (Dir es) (cleared w) = Some n1 →
      walk data_src n1 = Some (Dir ed) →
      graft (data_dest w) (Dir ed) n1 = Some n2 →
      course w
        (Run (Ok ()) (set_root w n2)
           (pre ++ [Called copy_scripts None; Printed scripts_line;
                    Called copy_data None; Printed data_line])).

(** Neither copy finds its destination in place. *)
Lemma scripts_dest_absent w : walk (scripts_dest w) (cleared w) = None.
Proof. apply walk_snoc_None, walk_unlink_dest. Qed.

Lemma data_dest_absent w mc es n1 :
  walk (cwd w) (cleared w) = Some (Dir mc) →
  graft (scripts_dest w) (Dir es) (cleared w) = Some n1 →
  walk (data_dest w) n1 = None.
Proof.
  intros Hc Hn1. unfold scripts_dest, data_dest in *.
  rewrite dest_of_snoc in Hn1 |- *.
  assert (mc !! ".skill" = None) as Hmc.
  { pose proof (walk_unlink_dest w) as Hfresh. fold (cleared w) in Hfresh.
    rewrite dest_of_cons, walk_app, Hc in Hfresh.
    cbn [mbind option_bind walk] in Hfresh. by destruct (mc !! ".skill"). }
  destruct (walk_graft_fresh _ _ _ _ _ _ _ Hc Hmc Hn1) as [_ Hd].
  by eapply walk_sibling_absent.
Qed.

(** A source that is missing at the start is still missing when its copy
    begins. *)
Lemma scripts_stays_missing w :
  walk scripts_src (root w) = None → walk scripts_src (cleared w) = None.
Proof. apply walk_unlink_None. Qed.

Lemma data_stays_missing w mc es n1 :
  walk data_src (root w) = None →
  walk (cwd w) (cleared w) = Some (Dir mc) →
  graft (scripts_dest w) (Dir es) (cleared w) = Some n1 →
  walk data_src n1 = None.
Proof.
  intros Hd Hc Hn1.
  assert (walk data_src (cleared w) = None) as Hd0 by (by apply walk_unlink_None).
  rewrite <-Hd0. eapply walk_graft_diverge; [exact Hn1|].
  unfold scripts_dest. rewrite dest_of_snoc, <-(app_nil_r data_src).
  apply diverge_through; [apply skill_not_in_data_src|].
  by eapply not_below_missing.
Qed.

Lemma copy_skill_course w : course w (copy_skill E w).
Proof.
  destruct (res (reset_destination E w)) as [[]|e] eqn:Hreset.
  2:{ rewrite (copy_skill_reset_raised _ _ _ Hreset).
      destruct (reset_Raise _ _ _ Hreset) as (Heq & Hsome & Hne & _).
      rewrite Heq in Hreset. by constructor. }
  rewrite (copy_skill_after_reset _ _ Hreset).
  destruct (reset_Ok _ _ Hreset) as [_ Hpre].
  fold (cleared w). set (w0 := set_root w (cleared w)).
  remember (copy_subtrees E w0) as r eqn:Heq.
  destruct (copy_subtrees_progress E w0) as [e H1|w1 e H1 H2|w1 w2 H1 H2];
    subst r; cbn [res final log].
  - apply scripts_raises; [done|done|]. intros ->.
    destruct (copytree_Raise _ _ _ _ _ H1) as (_ & Hex & _).
    destruct (Hex eq_refl) as [c Hc].
    change (stat w0 (DEST_DIR / "scripts"))
      with (stat w0 (Rel [".skill"; "scripts"])) in Hc.
    rewrite stat_Rel in Hc.
    change (cwd w0) with (cwd w) in Hc. change (root w0) with (cleared w) in Hc.
    pose proof (scripts_dest_absent w) as Habs. unfold scripts_dest in Habs.
    by rewrite <-dest_of_snoc, Habs in Hc.
  - assert (res (copytree E (SOURCE_DIR / "scripts") (DEST_DIR / "scripts") w0)
            = Ok ()) as H1ok by (by rewrite H1).
    destruct (copy_returned _ _ _ H1ok)
      as (mc & es & n1 & Hc & Hs & _ & _ & Hn1 & Heq1).
    rewrite Heq1 in H1. injection H1 as <-.
    change (set_root w0 n1) with (set_root w n1) in *.
    eapply data_raises; try done. intros ->.
    destruct (copytree_Raise _ _ _ _ _ H2) as (_ & Hex & _).
    destruct (Hex eq_refl) as [c Hc'].
    change (stat (set_root w n1) (DEST_DIR / "data"))
      with (stat (set_root w n1) (Rel [".skill"; "data"])) in Hc'.
    rewrite stat_Rel in Hc'.
    change (cwd (set_root w n1)) with (cwd w) in Hc'.
    change (root (set_root w n1)) with n1 in Hc'.
    pose proof (data_dest_absent w mc es n1 Hc Hn1) as Habs.
    unfold data_dest in Habs. by rewrite <-dest_of_snoc, Habs in Hc'.
  - assert (res (copytree E (SOURCE_DIR / "scripts") (DEST_DIR / "scripts") w0)
            = Ok ()) as H1ok by (by rewrite H1).
    destruct (copy_returned _ _ _ H1ok)
      as (mc & es & n1 & Hc & Hs & _ & _ & Hn1 & Heq1).
    rewrite Heq1 in H1. injection H1 as <-.
    assert (res (copytree E (SOURCE_DIR / "data") (DEST_DIR / "data")
                   (set_root w0 n1)) = Ok ()) as H2ok by (by rewrite H2).
    destruct (copy_returned _ _ _ H2ok)
      as (mc1 & ed & n2 & _ & Hd & _ & _ & Hn2 & Heq2).
    rewrite Heq2 in H2. injection H2 as <-.
    exact (both_return w _ mc es n1 ed n2 Hpre Hc Hs Hn1 Hd Hn2).
Qed.

End courses.

(** ** When the delete returns *)

Section returns.
Context (E : environment).
Implicit Types (w : world).

Lemma rmtree_returns P w p m :
  resolve w P = Some p → walk p (root w) = Some (Dir m) →
  fault E (Rmtree P) w = None →
  rmtree E P w = returned (Rmtree P) (set_root w (unlink p (root w))).
Proof. intros HP Hp Hf. unfold rmtree. by rewrite HP, Hp, Hf. Qed.

End returns.

(** ** Two invariants of every run *)

(** *** An exception ends the run *)

(** A run is disciplined when its log tells its result: no call raised in
    a run that returned, and in a run that raised, the last event is the
    call that raised that very exception, the only one that raised. *)
Definition disciplined {A} (r : run A) : Prop :=
  match res r with
  | Ok _ => failures (log r) = []
  | Raise e => ∃ l c, log r = l ++ [Called c (Some e)] ∧ failures l = []
  end.

(** *** Only the destination changes *)

(** A run from [w] is confined to the entry [x] of the working directory
    when it keeps the working directory and changes nothing at any path that
    diverges from that entry. *)
Definition confined {A} (x : string) (w : world) (r : run A) : Prop :=
  cwd (final r) = cwd w ∧
  ∀ q, diverge (cwd w ++ [x]) q → walk q (root (final r)) = walk q (root w).

Section invariants.
Context (E : environment).
Implicit Types (w : world) (x : string) (q f : path).

Lemma disciplined_bind {A B} (m : io A) (k : A → io B) w :
  disciplined (m w) → (∀ a w', disciplined (k a w')) →
  disciplined ((m ≫= k) w).
Proof.
  unfold mbind, io_bind, disciplined.
  destruct (m w) as [[a|e] w1 l1]; cbn [res final log]; intros Hm Hk; [|done].
  specialize (Hk a w1). destruct (k a w1) as [[b|e] w2 l2]; cbn [res log] in *.
  - by rewrite failures_app, Hm, Hk.
  - destruct Hk as (l & c & -> & Hl). exists (l1 ++ l), c.
    by rewrite app_assoc, failures_app, Hm, Hl.
Qed.

Lemma disciplined_rmtree P w : disciplined (rmtree E P w).
Proof.
  unfold disciplined. destruct (res (rmtree E P w)) as [[]|e] eqn:Hr.
  - by destruct (rmtree_Ok E _ _ Hr) as (p & m & _ & _ & ->).
  - destruct (rmtree_Raise E _ _ _ Hr) as (_ & -> & _). by exists [], (Rmtree P).
Qed.

Lemma disciplined_copytree S D w : disciplined (copytree E S D w).
Proof.
  unfold disciplined. destruct (res (copytree E S D w)) as [[]|e] eqn:Hr.
  - by destruct (copytree_Ok E _ _ _ Hr)
      as (s & d & es & n & _ & _ & _ & _ & _ & _ & ->).
  - destruct (copytree_Raise E _ _ _ _ Hr) as (-> & _).
    by exists [], (Copytree S D).
Qed.

Lemma disciplined_copy_skill w : disciplined (copy_skill E w).
Proof.
  unfold copy_skill. apply disciplined_bind; [done|]. intros b w1.
  apply disciplined_bind.
  { destruct b; [apply disciplined_rmtree|done]. }
  intros _ w2. apply disciplined_bind; [apply disciplined_copytree|].
  intros _ w3. apply disciplined_bind; [done|].
  intros _ w4. apply disciplined_bind; [apply disciplined_copytree|done].
Qed.

Lemma walk_leave_diverge f j n q :
  diverge f q → walk q (leave f j n) = walk q n.
Proof.
  intros Hd. destruct j as [v|]; [|done]. unfold leave.
  destruct (graft f v n) as [n'|] eqn:Hn; [|done].
  by eapply walk_graft_diverge.
Qed.

Lemma fresh_prefix_below p x t n m f :
  walk p n = Some (Dir m) → fresh_prefix (p ++ x :: t) n = Some f →
  ∃ t', f = (p ++ [x]) ++ t'.
Proof.
  intros Hp Hf. rewrite (fresh_prefix_app _ _ _ _ Hp) in Hf.
  cbn [fresh_prefix] in Hf. destruct (m !! x) as [c|].
  - destruct (fresh_prefix t c) as [t'|]; [|done]. injection Hf as <-.
    exists t'. by rewrite <-app_assoc.
  - injection Hf as <-. exists []. by rewrite app_nil_r.
Qed.

Lemma confined_bind {A B} x (m : io A) (k : A → io B) w :
  confined x w (m w) → (∀ a w', confined x w' (k a w')) →
  confined x w ((m ≫= k) w).
Proof.
  unfold mbind, io_bind, confined.
  destruct (m w) as [[a|e] w1 l1]; cbn [res final log]; intros [Hc Hm] Hk; [|done].
  destruct (Hk a w1) as [Hc' Hk']. split; [congruence|].
  intros q Hq. rewrite Hk', Hm; [done|done|by rewrite Hc].
Qed.

Lemma confined_rmtree x w : confined x w (rmtree E (Rel [x]) w).
Proof.
  unfold confined. destruct (res (rmtree E (Rel [x]) w)) as [[]|e] eqn:Hr.
  - destruct (rmtree_Ok E _ _ Hr) as (p & m & Hp & _ & ->).
    apply resolve_Rel in Hp as [_ ->]. split; [done|]. intros q Hq.
    by apply walk_unlink_diverge.
  - destruct (rmtree_Raise E _ _ _ Hr) as (_ & _ & [->|(p & m & j & Hp & _ & ->)]).
    { done. }
    apply resolve_Rel in Hp as [_ ->]. split; [done|]. intros q Hq.
    by apply walk_leave_diverge.
Qed.

Lemma confined_copytree S x t w : confined x w (copytree E S (Rel (x :: t)) w).
Proof.
  unfold confined. destruct (res (copytree E S (Rel (x :: t)) w)) as [[]|e] eqn:Hr.
  - destruct (copytree_Ok E _ _ _ Hr)
      as (s & d & es & n & _ & _ & Hd & _ & _ & Hn & ->).
    apply resolve_Rel in Hd as [_ ->]. split; [done|]. intros q Hq.
    eapply walk_graft_diverge; [exact Hn|].
    change (x :: t) with ([x] ++ t). rewrite app_assoc. by apply diverge_below.
  - destruct (copytree_Raise E _ _ _ _ Hr)
      as (_ & _ & [->|(d & f & j & Hd & Hf & ->)]).
    { done. }
    apply resolve_Rel in Hd as [[m Hc] ->]. split; [done|]. intros q Hq.
    destruct (fresh_prefix_below _ _ _ _ _ _ Hc Hf) as [t' ->].
    apply walk_leave_diverge. by apply diverge_below.
Qed.

Lemma confined_copy_skill w : confined ".skill" w (copy_skill E w).
Proof.
  unfold copy_skill. apply confined_bind; [done|]. intros b w1.
  apply confined_bind.
  { destruct b; [apply confined_rmtree|done]. }
  intros _ w2. apply confined_bind; [apply confined_copytree|].
  intros _ w3. apply confined_bind; [done|].
  intros _ w4. apply confined_bind; [apply confined_copytree|done].
Qed.

End invariants.

(** ** Worlds to run the script in *)

(** [plant entries] is the tree that holds the given subtrees at the given
    places, and the directories that lead to them. *)
Definition plant (entries : list (path * node)) : node :=
  foldl (λ n e, default n (graft e.1 e.2 n)) (Dir ∅) entries.

Definition build_sh : node := File [x23; x21; x2f; x62; x69; x6e].
Definition config_json : node := File [x7b; x7d].
Definition old_txt : node := File [x6f; x6c; x64].

(** The scenario of the specification: the source holds [scripts/build.sh]
    and [data/config.json]; the script runs in [C:\work], where there is no
    destination yet. *)
Definition fresh_world : world :=
  World ["C:"; "work"]
    (plant [(scripts_src ++ ["build.sh"], build_sh);
            (data_src ++ ["config.json"], config_json);
            (["C:"; "work"], Dir ∅)]).

(** The same, after an earlier run left something in the destination. *)
Definition stale_world : world :=
  World ["C:"; "work"]
    (plant [(scripts_src ++ ["build.sh"], build_sh);
            (data_src ++ ["config.json"], config_json);
            (["C:"; "work"; ".skill"; "old.txt"], old_txt)]).

(** The script run from inside the source: in the source directory itself,
    and in its [scripts] directory, each with a destination from before. *)
Definition inside_source_world : world :=
  World (parts SOURCE_DIR)
    (plant [(scripts_src ++ ["build.sh"], build_sh);
            (data_src ++ ["config.json"], config_json);
            (parts SOURCE_DIR ++ [".skill"; "old.txt"], old_txt)]).

Definition inside_scripts_world : world :=
  World scripts_src
    (plant [(scripts_src ++ ["build.sh"], build_sh);
            (data_src ++ ["config.json"], config_json);
            (scripts_src ++ [".skill"; "old.txt"], old_txt)]).

(** A source without [data], and a source without [scripts]. *)
Definition no_data_world : world :=
  World ["C:"; "work"]
    (plant [(scripts_src ++ ["build.sh"], build_sh);
            (["C:"; "work"], Dir ∅)]).

Definition no_scripts_world : world :=
  World ["C:"; "work"]
    (plant [(data_src ++ ["config.json"], config_json);
            (["C:"; "work"], Dir ∅)]).

(** The scenario of the specification, run: both lines are printed and the
    destination holds the two files with their bytes. *)
Example scenario_runs :
  let r := copy_skill quiet fresh_world in
  res r = Ok () ∧
  stdout (log r) = ["Copied scripts to .skill\scripts"; "Copied data to .skill\data"] ∧
  walk ["C:"; "work"; ".skill"; "scripts"; "build.sh"] (root (final r)) = Some build_sh ∧
  walk ["C:"; "work"; ".skill"; "data"; "config.json"] (root (final r)) = Some config_json.
Proof. by vm_compute. Qed.

(** ** The theorems *)

Section theorems.
Context (E : environment).
Implicit Types (w : world) (e : exn).

(** C7. A run that completes writes exactly two lines to standard output,
    the line of the [scripts] copy and then the line of the [data] copy, each
    right after its copy returned and each naming the destination of that
    copy. *)
Theorem two_lines_on_stdout w :
  res (copy_skill E w) = Ok () →
  stdout (log (copy_skill E w))
    = ["Copied scripts to " +:+ str (DEST_DIR / "scripts");
       "Copied data to " +:+ str (DEST_DIR / "data")] ∧
  ∃ pre, stdout pre = [] ∧
    log (copy_skill E w)
      = pre ++ [Called copy_scripts None; Printed scripts_line;
                Called copy_data None; Printed data_line].
Proof.
  intros Hok.
  destruct (copy_skill_Ok E w Hok)
    as (mc & es & ed & n1 & n2 & pre & _ & _ & _ & _ & _ & _ & _ & _ & _ & _ & _ & Hpre & ->).
  assert (stdout pre = []) as Hout by (by destruct Hpre as [->| ->]).
  split; [|by exists pre].
  by rewrite stdout_app, Hout.
Qed.

(** C10. The delete is guarded by the existence check.  The delete never
    raises for a missing path; and when there is no destination at the start,
    the reset does nothing and returns, no [rmtree] is called in the whole
    run, and if the run raises, it is one of the two copies that raised. *)
Theorem no_delete_without_destination w :
  ((remove_dest, FileNotFoundError) ∉ failures (log (copy_skill E w))) ∧
  (walk (dest_of w) (root w) = None →
   reset_destination E w = Run (Ok ()) w [] ∧
   (∀ P r, Called (Rmtree P) r ∉ log (copy_skill E w)) ∧
   (∀ e, res (copy_skill E w) = Raise e →
      (copy_scripts, e) ∈ failures (log (copy_skill E w)) ∨
      (copy_data, e) ∈ failures (log (copy_skill E w)))).
Proof.
  split.
  { intros Hin. apply elem_of_failures in Hin.
    destruct (copy_skill_course E w)
      as [e Hsome Hr Hne|pre e Hpre ? Hne|pre mc es n1 e Hpre ? ? ? ? Hne|
          pre mc es n1 ed n2 Hpre];
      cbn [log] in Hin.
    - apply list_elem_of_singleton in Hin. injection Hin as <-.
      rewrite <-stat_DEST_DIR in Hsome.
      by apply (rmtree_Raise_found E _ _ _ Hsome Hr).
    - rewrite elem_of_app, list_elem_of_singleton in Hin.
      destruct Hin as [Hin|Hin]; [|discriminate Hin].
      destruct Hpre as [->| ->]; [by apply elem_of_nil in Hin|].
      apply list_elem_of_singleton in Hin. discriminate Hin.
    - rewrite elem_of_app, !elem_of_cons, elem_of_nil in Hin.
      destruct Hin as [Hin|[Hin|[Hin|[Hin|[]]]]]; try discriminate Hin.
      destruct Hpre as [->| ->]; [by apply elem_of_nil in Hin|].
      apply list_elem_of_singleton in Hin. discriminate Hin.
    - rewrite elem_of_app, !elem_of_cons, elem_of_nil in Hin.
      destruct Hin as [Hin|[Hin|[Hin|[Hin|[Hin|[]]]]]]; try discriminate Hin.
      destruct Hpre as [->| ->]; [by apply elem_of_nil in Hin|].
      apply list_elem_of_singleton in Hin. discriminate Hin. }
  intros Hfresh. split; [by apply reset_fresh|].
  rewrite (copy_skill_fresh E w Hfresh).
  destruct (copy_subtrees_progress E w) as [e H1|w1 e H1 H2|w1 w2 H1 H2];
    cbn [res log]; split.
  - intros P r Hin. apply list_elem_of_singleton in Hin. discriminate Hin.
  - intros e' [= <-]. left. apply elem_of_failures, list_elem_of_singleton. done.
  - intros P r Hin. rewrite !elem_of_cons, elem_of_nil in Hin.
    destruct Hin as [Hin|[Hin|[Hin|[]]]]; discriminate Hin.
  - intros e' [= <-]. right. apply elem_of_failures.
    rewrite !elem_of_cons. auto.
  - intros P r Hin. rewrite !elem_of_cons, elem_of_nil in Hin.
    destruct Hin as [Hin|[Hin|[Hin|[Hin|[]]]]]; discriminate Hin.
  - intros e' [=].
Qed.

(** C6. No copy collides with an entry at its destination.  Once the
    reset has returned there is no [scripts] in the destination; once the
    [scripts] copy has returned as well there is no [data] in it; so no run
    ever raises [FileExistsError], from any call. *)
Theorem no_copy_collides w :
  (res (reset_destination E w) = Ok () →
   stat (final (reset_destination E w)) (DEST_DIR / "scripts") = None) ∧
  (∀ w1, res (reset_destination E w) = Ok () →
     copytree E (SOURCE_DIR / "scripts") (DEST_DIR / "scripts")
       (final (reset_destination E w)) = returned copy_scripts w1 →
     stat w1 (DEST_DIR / "data") = None) ∧
  res (copy_skill E w) ≠ Raise FileExistsError ∧
  ∀ c, (c, FileExistsError) ∉ failures (log (copy_skill E w)).
Proof.
  split_and!.
  - intros Hok. destruct (reset_Ok E _ Hok) as [-> _].
    change (DEST_DIR / "scripts")%Path with (Rel [".skill"; "scripts"]).
    rewrite stat_Rel. cbn [cwd root set_root]. rewrite <-dest_of_snoc.
    apply scripts_dest_absent.
  - intros w1 Hok H1. destruct (reset_Ok E _ Hok) as [Hw0 _].
    rewrite Hw0 in H1.
    assert (res (copytree E (SOURCE_DIR / "scripts") (DEST_DIR / "scripts")
                   (set_root w (cleared w))) = Ok ()) as H1ok.
    { unfold cleared. by rewrite H1. }
    destruct (copy_returned _ _ _ H1ok)
      as (mc & es & n1 & Hc & _ & _ & _ & Hn1 & Heq1).
    unfold cleared in Heq1. rewrite Heq1 in H1. injection H1 as <-.
    change (DEST_DIR / "data")%Path with (Rel [".skill"; "data"]).
    rewrite stat_Rel. cbn [cwd root set_root]. rewrite <-dest_of_snoc.
    exact (data_dest_absent w mc es n1 Hc Hn1).
  - by destruct (copy_skill_course E w); cbn [res]; try congruence.
  - intros c Hin.
    destruct (copy_skill_course E w)
      as [e ? ? Hne|pre e Hpre ? Hne|pre mc es n1 e Hpre ? ? ? ? Hne|
          pre mc es n1 ed n2 Hpre];
      cbn [log] in Hin; rewrite ?failures_app in Hin.
    + apply list_elem_of_singleton in Hin. congruence.
    + assert (failures pre = []) as Hp by (by destruct Hpre as [->| ->]).
      rewrite Hp in Hin. apply list_elem_of_singleton in Hin. congruence.
    + assert (failures pre = []) as Hp by (by destruct Hpre as [->| ->]).
      rewrite Hp in Hin. apply list_elem_of_singleton in Hin. congruence.
    + assert (failures pre = []) as Hp by (by destruct Hpre as [->| ->]).
      rewrite Hp in Hin. by apply elem_of_nil in Hin.
Qed.

(** C4. The process exits with the status of an unhandled exception exactly
    when a source directory is missing or some call raised.  The exception
    that ends the run is the one the call raised, unchanged; that call is the
    last event of the run and the only call that raised, so nothing is caught
    or tried again.  Otherwise the process exits with status 0, after both
    copies returned. *)
Theorem exit_status_tells w :
  (exit_status (main E w) = 1 ↔
     walk scripts_src (root w) = None ∨ walk data_src (root w) = None ∨
     failures (log (main E w)) ≠ []) ∧
  (∀ e, res (main E w) = Raise e →
     ∃ l c, log (main E w) = l ++ [Called c (Some e)] ∧
       failures l = []) ∧
  (exit_status (main E w) ≠ 1 →
     res (main E w) = Ok () ∧
     ∃ pre, failures pre = [] ∧
       log (main E w)
         = pre ++ [Called copy_scripts None; Printed scripts_line;
                   Called copy_data None; Printed data_line]).
Proof.
  change (main E w) with (copy_skill E w).
  pose proof (disciplined_copy_skill E w) as Hdis. unfold disciplined in Hdis.
  split_and!.
  - unfold exit_status. split.
    + intros Hst. right; right.
      destruct (res (copy_skill E w)) as [[]|e]; [done|].
      destruct Hdis as (l & c & -> & _). rewrite failures_app.
      intros Hnil. by apply app_eq_nil in Hnil as [_ ?].
    + intros Hwhy.
      destruct (copy_skill_course E w)
        as [e ? ? Hne|pre e Hpre ? Hne|pre mc es n1 e Hpre ? ? ? ? Hne|
            pre mc es n1 ed n2 Hpre Hc Hs Hn1 Hd Hn2];
        cbn [res log] in *; try done.
      exfalso. destruct Hwhy as [Hmiss|[Hmiss|Hfail]].
      * apply scripts_stays_missing in Hmiss. congruence.
      * pose proof (data_stays_missing w mc es n1 Hmiss Hc Hn1). congruence.
      * done.
  - intros e He. by rewrite He in Hdis.
  - intros Hst.
    destruct (copy_skill_course E w)
      as [e ? ? Hne|pre e Hpre ? Hne|pre mc es n1 e Hpre ? ? ? ? Hne|
          pre mc es n1 ed n2 Hpre Hc Hs Hn1 Hd Hn2];
      cbn [res log exit_status] in *; try done.
    split; [done|]. exists pre. split; [|done]. by destruct Hpre as [->| ->].
Qed.

(** C3, as amended.  The subtrees are processed in the order [scripts],
    then [data].  When the [scripts] source is missing, the run raises and
    the [data] copy is never called.  When the [data] source is missing and
    no other call raises (neither the delete nor the [scripts] copy), the
    [scripts] copy returns and its line is printed, then the [data] copy
    raises [FileNotFoundError]; the destination then holds the copy of
    [scripts], which is the [scripts] source as it stood at the start when
    the working directory is outside it, and holds no [data]. *)
Theorem scripts_then_data w :
  (walk scripts_src (root w) = None →
     (∃ e, res (copy_skill E w) = Raise e) ∧
     ∀ D r, Called (Copytree (SOURCE_DIR / "data") D) r ∉ log (copy_skill E w)) ∧
  (walk data_src (root w) = None →
   (∀ c e, (c, e) ∈ failures (log (copy_skill E w)) → c = copy_data) →
     res (copy_skill E w) = Raise FileNotFoundError ∧
     (∃ pre, stdout pre = [] ∧ failures pre = [] ∧
        log (copy_skill E w)
          = pre ++ [Called copy_scripts None; Printed scripts_line;
                    Called copy_data (Some FileNotFoundError)]) ∧
     (∃ es, walk scripts_src (cleared w) = Some (Dir es) ∧
        walk (scripts_dest w) (root (final (copy_skill E w))) = Some (Dir es) ∧
        (¬ scripts_src `prefix_of` cwd w →
         walk scripts_src (root w) = Some (Dir es))) ∧
     walk (data_dest w) (root (final (copy_skill E w))) = None).
Proof.
  split.
  - intros Hmiss. apply scripts_stays_missing in Hmiss.
    destruct (copy_skill_course E w)
      as [e ? ? Hne|pre e Hpre ? Hne|pre mc es n1 e Hpre ? ? ? ? Hne|
          pre mc es n1 ed n2 Hpre Hc Hs Hn1 Hd Hn2];
      cbn [res log]; try congruence.
    + split; [eauto|]. intros D r Hin.
      apply list_elem_of_singleton in Hin. discriminate Hin.
    + split; [eauto|]. intros D r Hin.
      rewrite elem_of_app, list_elem_of_singleton in Hin.
      destruct Hin as [Hin|Hin]; [|discriminate Hin].
      destruct Hpre as [->| ->].
      * by apply elem_of_nil in Hin.
      * apply list_elem_of_singleton in Hin. discriminate Hin.
  - intros Hd Honly.
    destruct (copy_skill_course E w)
      as [e ? ? Hne|pre e Hpre ? Hne|pre mc es n1 e Hpre Hc Hs Hn1 H2 Hne|
          pre mc es n1 ed n2 Hpre Hc Hs Hn1 Hd1 Hn2];
      cbn [res final log] in *.
    + assert (remove_dest = copy_data) as Hcall; [|discriminate Hcall].
      apply (Honly _ e), elem_of_failures, list_elem_of_singleton. done.
    + assert (copy_scripts = copy_data) as Hcall; [|discriminate Hcall].
      apply (Honly _ e), elem_of_failures. rewrite elem_of_app. right.
      by apply list_elem_of_singleton.
    + pose proof (data_stays_missing w mc es n1 Hd Hc Hn1) as Hd1.
      pose proof (copytree_missing E (SOURCE_DIR / "data") (DEST_DIR / "data")
                    (set_root w n1) Hd1) as Hraise.
      rewrite Hraise in H2 |- *. injection H2 as <-.
      cbn [final raised root set_root].
      split_and!; [done| | |exact (data_dest_absent w mc es n1 Hc Hn1)].
      * exists pre. by destruct Hpre as [->| ->].
      * exists es. split_and!; [done|by apply walk_graft_self in Hn1|].
        intros Hout. rewrite <-Hs. symmetry. apply walk_unlink_diverge.
        rewrite dest_of_cons, <-(app_nil_r scripts_src).
        apply diverge_through; [apply skill_not_in_scripts_src|done].
    + pose proof (data_stays_missing w mc es n1 Hd Hc Hn1). congruence.
Qed.

(** C9, as amended.  Every run, completed or not, keeps the working
    directory and changes nothing outside the destination: what the tree
    holds at any path that diverges from the destination is the same before
    and after.  So when the working directory is not the source directory or
    inside it, the source directory is the same before and after, with all
    that is below it. *)
Theorem source_untouched_from_outside w :
  (∀ q, diverge (dest_of w) q →
     walk q (root (final (copy_skill E w))) = walk q (root w)) ∧
  (¬ parts SOURCE_DIR `prefix_of` cwd w →
   ∀ rel,
     walk (parts SOURCE_DIR ++ rel) (root (final (copy_skill E w)))
       = walk (parts SOURCE_DIR ++ rel) (root w)).
Proof.
  destruct (confined_copy_skill E w) as [_ Hframe]. split; [exact Hframe|].
  intros Hout rel. apply Hframe.
  apply diverge_through; [apply skill_not_in_SOURCE_DIR|done].
Qed.

(** The two copies, after a run that completes from a working directory
    other than the [scripts] source: each is the source directory as it was
    at the start. *)
Lemma copies_are_the_sources w :
  res (copy_skill E w) = Ok () → cwd w ≠ scripts_src →
  walk (scripts_dest w) (root (final (copy_skill E w))) = walk scripts_src (root w) ∧
  walk (data_dest w) (root (final (copy_skill E w))) = walk data_src (root w) ∧
  ∃ es ed, walk scripts_src (root w) = Some (Dir es) ∧
           walk data_src (root w) = Some (Dir ed).
Proof.
  intros Hok Hcwd.
  destruct (copy_skill_Ok E w Hok)
    as (mc & es & ed & n1 & n2 & pre & _ & Hc & Hmc & Hs & Hd & Hin & Hout
        & Hn1 & Hn2 & _ & -> & _).
  cbn [root set_root].
  assert (walk scripts_src (root w) = Some (Dir es)) as Hs'.
  { rewrite <-Hs. symmetry. apply walk_unlink_diverge. rewrite dest_of_cons.
    rewrite <-(app_nil_r scripts_src).
    apply diverge_through; [apply skill_not_in_scripts_src|naive_solver]. }
  assert (walk data_src (root w) = Some (Dir ed)) as Hd'.
  { rewrite <-Hd. symmetry. apply walk_unlink_diverge. rewrite dest_of_cons.
    rewrite <-(app_nil_r data_src).
    apply diverge_through; [apply skill_not_in_data_src|done]. }
  split_and!; [| |by eauto].
  - rewrite Hs'. rewrite <-(walk_graft_self _ _ _ _ Hn1).
    eapply walk_graft_diverge; [exact Hn2|].
    unfold data_dest, scripts_dest.
    rewrite <-(app_nil_r (dest_of w ++ ["scripts"])), <-!app_assoc.
    by apply diverge_siblings.
  - rewrite Hd'. by apply walk_graft_self in Hn2.
Qed.

(** Removing the destination keeps every file that is not inside it. *)
Lemma walk_cleared_file w q b :
  walk q (root w) = Some (File b) → ¬ dest_of w `prefix_of` q →
  walk q (cleared w) = Some (File b).
Proof.
  intros Hq Hout. unfold cleared.
  destruct (path_cases (dest_of w) q) as [[r ->]|[(y & r & Hd)|Hd]].
  - destruct Hout. by exists r.
  - by rewrite Hd, walk_unlink_above, Hq.
  - by rewrite walk_unlink_diverge.
Qed.

(** C1, as amended.  After a run that completes, the destination holds, for
    each of the two subtrees and every file that the subtree held at the
    start outside the destination directory, a file with the same bytes at
    the same relative path.  (A file inside the old destination is deleted
    by the reset, not copied.) *)
Theorem copies_mirror_sources w :
  res (copy_skill E w) = Ok () →
  ∀ x rel b, x ∈ ["scripts"; "data"] →
    walk (parts SOURCE_DIR ++ x :: rel) (root w) = Some (File b) →
    ¬ dest_of w `prefix_of` parts SOURCE_DIR ++ x :: rel →
    walk (dest_of w ++ x :: rel) (root (final (copy_skill E w))) = Some (File b).
Proof.
  intros Hok x rel b Hx Hfile Hout.
  destruct (copy_skill_Ok E w Hok)
    as (mc & es & ed & n1 & n2 & pre & _ & Hc & Hmc & Hs & Hd & _ & _
        & Hn1 & Hn2 & _ & -> & _).
  cbn [root set_root]. fold (cleared w) in *.
  apply (walk_cleared_file w _ b) in Hfile; [|done].
  change (x :: rel) with ([x] ++ rel) in *. rewrite app_assoc, walk_app in *.
  rewrite !elem_of_cons, elem_of_nil in Hx.
  destruct Hx as [->|[->|[]]].
  - change (walk (parts SOURCE_DIR ++ ["scripts"]) (cleared w))
      with (walk scripts_src (cleared w)) in Hfile.
    rewrite Hs in Hfile. rewrite <-Hfile. apply (f_equal (λ o, o ≫= walk rel)).
    rewrite <-(walk_graft_self _ _ _ _ Hn1).
    eapply walk_graft_diverge; [exact Hn2|].
    unfold data_dest, scripts_dest.
    rewrite <-(app_nil_r (dest_of w ++ ["scripts"])), <-!app_assoc.
    by apply diverge_siblings.
  - change (walk (parts SOURCE_DIR ++ ["data"]) (cleared w))
      with (walk data_src (cleared w)) in Hfile.
    rewrite Hd in Hfile. rewrite <-Hfile. apply (f_equal (λ o, o ≫= walk rel)).
    by apply walk_graft_self in Hn2.
Qed.

(** C2.  After a run that completes, whatever the destination held before,
    the destination is a directory with exactly two entries: [scripts], the
    [scripts] source as it stood once the old destination was gone, and
    [data], the [data] source.  Nothing that was in the destination before is
    left in it. *)
Theorem destination_is_the_two_copies w :
  res (copy_skill E w) = Ok () →
  ∃ es ed,
    walk scripts_src (cleared w) = Some (Dir es) ∧
    walk data_src (root w) = Some (Dir ed) ∧
    walk (dest_of w) (root (final (copy_skill E w)))
      = Some (Dir {[ "scripts" := Dir es; "data" := Dir ed ]}) ∧
    (cwd w ≠ scripts_src → walk scripts_src (root w) = Some (Dir es)).
Proof.
  intros Hok.
  destruct (copy_skill_Ok E w Hok)
    as (mc & es & ed & n1 & n2 & pre & _ & Hc & Hmc & Hs & Hd & Hin & Hout
        & Hn1 & Hn2 & _ & -> & _).
  exists es, ed. cbn [root set_root].
  assert (walk data_src (root w) = Some (Dir ed)) as Hd'.
  { rewrite <-Hd. symmetry. apply walk_unlink_diverge. rewrite dest_of_cons.
    rewrite <-(app_nil_r data_src).
    apply diverge_through; [apply skill_not_in_data_src|done]. }
  split_and!; [done|done| |].
  - unfold scripts_dest in Hn1. unfold data_dest in Hn2.
    rewrite dest_of_snoc in Hn1, Hn2. rewrite dest_of_cons.
    destruct (walk_two_grafts _ _ _ _ _ _ _ _ _ _ Hc Hmc Hn1 Hn2) as [_ ->].
    apply (f_equal Some), (f_equal Dir).
    rewrite <-insert_empty. by apply insert_insert_ne.
  - intros Hcwd. rewrite <-Hs. symmetry. apply walk_unlink_diverge.
    rewrite dest_of_cons, <-(app_nil_r scripts_src).
    apply diverge_through; [apply skill_not_in_scripts_src|naive_solver].
Qed.

(** The tree that the reset leaves is the same in a second run. *)
Lemma cleared_again w n2 mc es ed n1 :
  walk (cwd w) (cleared w) = Some (Dir mc) → mc !! ".skill" = None →
  graft (scripts_dest w) (Dir es) (cleared w) = Some n1 →
  graft (data_dest w) (Dir ed) n1 = Some n2 →
  cleared (set_root w n2) = cleared w.
Proof.
  intros Hc Hmc Hn1 Hn2. unfold scripts_dest, data_dest in *.
  rewrite dest_of_snoc in Hn1, Hn2.
  destruct (walk_graft_fresh _ _ _ _ _ _ _ Hc Hmc Hn1) as [Hc1 _].
  unfold cleared at 1. change (dest_of (set_root w n2)) with (dest_of w).
  cbn [root set_root]. rewrite dest_of_cons.
  rewrite (unlink_graft _ _ _ _ _ _ _ Hc1 Hn2).
  rewrite (unlink_graft _ _ _ _ _ _ _ Hc Hn1).
  apply unlink_absent. rewrite <-dest_of_cons. apply walk_unlink_dest.
Qed.

(** C5.  A second run on an unchanged source ends in the state in which the
    first run ended; in particular the destination holds the same after the
    second run as after the first. *)
Theorem second_run_same_state w :
  res (copy_skill E w) = Ok () →
  res (copy_skill E (final (copy_skill E w))) = Ok () →
  final (copy_skill E (final (copy_skill E w))) = final (copy_skill E w) ∧
  walk (dest_of w) (root (final (copy_skill E (final (copy_skill E w)))))
    = walk (dest_of w) (root (final (copy_skill E w))).
Proof.
  intros Hok1 Hok2.
  destruct (copy_skill_Ok E w Hok1)
    as (mc & es & ed & n1 & n2 & pre & _ & Hc & Hmc & Hs & Hd & Hin & Hout
        & Hn1 & Hn2 & Hcopies & Hfin & _).
  fold (cleared w) in *. rewrite Hfin in Hok2 |- *.
  assert (final (copy_skill E (set_root w n2)) = set_root w n2) as Hsame.
  { destruct (res (reset_destination E (set_root w n2))) as [[]|e] eqn:Hreset.
    2:{ by rewrite (copy_skill_reset_raised _ _ _ Hreset) in Hok2. }
    rewrite (copy_skill_after_reset _ _ Hreset). cbn [final].
    fold (cleared (set_root w n2)).
    rewrite (cleared_again w n2 mc es ed n1 Hc Hmc Hn1 Hn2).
    change (set_root (set_root w n2) (cleared w)) with (set_root w (cleared w)).
    by rewrite Hcopies. }
  by rewrite Hsame.
Qed.

End theorems.

(** ** The theorems at work, and where the claims stop *)

(** C1 as stated fails when the script is run in the source's [scripts]
    directory with a destination left from an earlier run: the run completes,
    [old.txt] is a file of the [scripts] subtree at the start, and the
    destination has no file at the same relative path afterwards. *)
Lemma old_destination_inside_scripts_not_copied :
  res (copy_skill quiet inside_scripts_world) = Ok () ∧
  walk (parts SOURCE_DIR ++ ["scripts"; ".skill"; "old.txt"])
    (root inside_scripts_world) = Some old_txt ∧
  walk (dest_of inside_scripts_world ++ ["scripts"; ".skill"; "old.txt"])
    (root (final (copy_skill quiet inside_scripts_world))) = None.
Proof. by vm_compute. Qed.

Lemma copies_mirror_sources_witness :
  walk (dest_of inside_scripts_world ++ ["scripts"; "build.sh"])
    (root (final (copy_skill quiet inside_scripts_world))) = Some build_sh.
Proof.
  apply (copies_mirror_sources quiet inside_scripts_world).
  - vm_compute. reflexivity.
  - apply (bool_decide_unpack _). vm_compute. exact I.
  - vm_compute. reflexivity.
  - apply (bool_decide_unpack _). vm_compute. exact I.
Defined.

Lemma destination_is_the_two_copies_witness :
  ∃ es ed,
    walk scripts_src (cleared stale_world) = Some (Dir es) ∧
    walk data_src (root stale_world) = Some (Dir ed) ∧
    walk (dest_of stale_world) (root (final (copy_skill quiet stale_world)))
      = Some (Dir {[ "scripts" := Dir es; "data" := Dir ed ]}) ∧
    (cwd stale_world ≠ scripts_src →
     walk scripts_src (root stale_world) = Some (Dir es)).
Proof.
  apply (destination_is_the_two_copies quiet stale_world).
  vm_compute. reflexivity.
Defined.

(** What the run of [stale_world] leaves: the old file is gone, the two
    copies are there. *)
Example stale_destination_replaced :
  let r := copy_skill quiet stale_world in
  walk ["C:"; "work"; ".skill"; "old.txt"] (root stale_world) = Some old_txt ∧
  walk (dest_of stale_world) (root (final r))
    = Some (Dir {[ "scripts" := Dir {[ "build.sh" := build_sh ]};
                   "data" := Dir {[ "config.json" := config_json ]} ]}).
Proof. by vm_compute. Qed.

(** A source without [data], in a working directory where [.skill] is a
    regular file. *)
Definition no_data_file_world : world :=
  World ["C:"; "work"]
    (plant [(scripts_src ++ ["build.sh"], build_sh);
            (["C:"; "work"; ".skill"], old_txt)]).

(** C3 as stated fails when only the [data] source is missing and [.skill]
    is a regular file: the [scripts] source is a directory and [data] is
    missing, yet the run ends at the delete; the [scripts] copy is never
    called and the destination never holds it. *)
Lemma only_data_missing_yet_no_scripts_copy :
  walk scripts_src (root no_data_file_world)
    = Some (Dir {[ "build.sh" := build_sh ]}) ∧
  walk data_src (root no_data_file_world) = None ∧
  copy_skill quiet no_data_file_world
    = Run (Raise NotADirectoryError) no_data_file_world
        [Called remove_dest (Some NotADirectoryError)] ∧
  walk (scripts_dest no_data_file_world)
    (root (final (copy_skill quiet no_data_file_world))) = None.
Proof. by vm_compute. Qed.

Lemma scripts_then_data_witness :
  (∃ e, res (copy_skill quiet no_scripts_world) = Raise e) ∧
  res (copy_skill quiet no_data_world) = Raise FileNotFoundError ∧
  walk (data_dest no_data_world) (root (final (copy_skill quiet no_data_world)))
    = None.
Proof.
  split.
  - apply (proj1 (scripts_then_data quiet no_scripts_world)).
    vm_compute. reflexivity.
  - assert (walk data_src (root no_data_world) = None) as Hd
      by (vm_compute; reflexivity).
    assert (∀ c e, (c, e) ∈ failures (log (copy_skill quiet no_data_world)) →
                   c = copy_data) as Honly.
    { intros c e Hin. vm_compute in Hin.
      apply list_elem_of_singleton in Hin. injection Hin as -> _. reflexivity. }
    destruct (proj2 (scripts_then_data quiet no_data_world) Hd Honly)
      as (Hres & _ & _ & Hnone).
    by split.
Defined.

Lemma second_run_same_state_witness :
  final (copy_skill quiet (final (copy_skill quiet stale_world)))
    = final (copy_skill quiet stale_world).
Proof.
  apply (second_run_same_state quiet stale_world).
  - vm_compute. reflexivity.
  - vm_compute. reflexivity.
Defined.

Lemma no_copy_collides_witness :
  stat (final (reset_destination quiet stale_world)) (DEST_DIR / "scripts") = None.
Proof.
  apply (no_copy_collides quiet stale_world). vm_compute. reflexivity.
Defined.

Lemma two_lines_on_stdout_witness :
  stdout (log (copy_skill quiet fresh_world))
    = ["Copied scripts to .skill\scripts"; "Copied data to .skill\data"].
Proof.
  apply (two_lines_on_stdout quiet fresh_world). vm_compute. reflexivity.
Defined.

(** C9 as stated fails when the script is run in the source directory
    itself with a destination left from an earlier run: the run completes
    and [old.txt], a file under the source directory, is gone. *)
Lemma old_destination_inside_source_deleted :
  res (copy_skill quiet inside_source_world) = Ok () ∧
  walk (parts SOURCE_DIR ++ [".skill"; "old.txt"]) (root inside_source_world)
    = Some old_txt ∧
  walk (parts SOURCE_DIR ++ [".skill"; "old.txt"])
    (root (final (copy_skill quiet inside_source_world))) = None.
Proof. by vm_compute. Qed.

Lemma source_untouched_from_outside_witness :
  walk (parts SOURCE_DIR ++ ["scripts"; "build.sh"])
    (root (final (copy_skill quiet stale_world)))
    = walk (parts SOURCE_DIR ++ ["scripts"; "build.sh"]) (root stale_world).
Proof.
  apply (proj2 (source_untouched_from_outside quiet stale_world)).
  apply (bool_decide_unpack _). vm_compute. exact I.
Defined.

Lemma no_delete_without_destination_witness :
  reset_destination quiet fresh_world = Run (Ok ()) fresh_world [].
Proof.
  apply (proj2 (no_delete_without_destination quiet fresh_world)).
  vm_compute. reflexivity.
Defined.

(** ** More of what the script does *)

(** The script run from inside the [data] source. *)
Definition inside_data_world : world :=
  World data_src
    (plant [(scripts_src ++ ["build.sh"], build_sh);
            (data_src ++ ["config.json"], config_json)]).

(** The script run where a regular file is called [.skill]. *)
Definition file_world : world :=
  World ["C:"; "work"]
    (plant [(scripts_src ++ ["build.sh"], build_sh);
            (data_src ++ ["config.json"], config_json);
            (["C:"; "work"; ".skill"], old_txt)]).

Section more_facts.
Context (E : environment).
Implicit Types (w : world) (e : exn).

Lemma rmtree_File P w p b :
  resolve w P = Some p → walk p (root w) = Some (File b) →
  rmtree E P w = raised (Rmtree P) NotADirectoryError w.
Proof. intros HP Hp. unfold rmtree. by rewrite HP, Hp. Qed.

Lemma resolve_below_cwd w x c :
  walk (cwd w ++ [x]) (root w) = Some c →
  ∃ m, walk (cwd w) (root w) = Some (Dir m).
Proof.
  rewrite walk_app. destruct (walk (cwd w) (root w)) as [[b|m]|]; [done| |done].
  eauto.
Qed.

(** X1.  When the destination is a regular file, the existence check is
    true and the delete raises [NotADirectoryError]: the run ends there, with
    the tree as it was, nothing printed and no copy called. *)
Theorem destination_is_a_file w b :
  walk (dest_of w) (root w) = Some (File b) →
  copy_skill E w
    = Run (Raise NotADirectoryError) w
        [Called remove_dest (Some NotADirectoryError)].
Proof.
  intros Hfile.
  assert (rmtree E DEST_DIR w = raised remove_dest NotADirectoryError w) as Hrm.
  { destruct (resolve_below_cwd w ".skill" _ Hfile) as [m Hc].
    apply (rmtree_File DEST_DIR w (dest_of w) b); [|done].
    apply (resolve_Rel w [".skill"]). eauto. }
  assert (res (reset_destination E w) = Raise NotADirectoryError) as Hreset.
  { rewrite reset_present by (by rewrite Hfile). by rewrite Hrm. }
  rewrite (copy_skill_reset_raised E w _ Hreset). by rewrite Hrm.
Qed.

(** X2.  The old destination is deleted before the source is looked at:
    when the [scripts] source is missing and the delete did not raise, the
    run raises [FileNotFoundError] with the destination gone, nothing in its
    place and nothing printed. *)
Theorem missing_scripts_loses_destination w :
  walk scripts_src (root w) = None →
  (∀ e, (remove_dest, e) ∉ failures (log (copy_skill E w))) →
  res (copy_skill E w) = Raise FileNotFoundError ∧
  final (copy_skill E w) = set_root w (cleared w) ∧
  walk (dest_of w) (root (final (copy_skill E w))) = None ∧
  stdout (log (copy_skill E w)) = [].
Proof.
  intros Hmiss Hdel. apply scripts_stays_missing in Hmiss.
  pose proof (copytree_missing E (SOURCE_DIR / "scripts") (DEST_DIR / "scripts")
                (set_root w (cleared w)) Hmiss) as Hraise.
  destruct (copy_skill_course E w)
    as [e Hsome Hr Hne|pre e Hpre H1 Hne|pre mc es n1 e Hpre ? ? ? ? Hne|
        pre mc es n1 ed n2 Hpre Hc Hs Hn1 Hd Hn2];
    cbn [res final log] in *; try congruence.
  - destruct (Hdel e). apply elem_of_failures, list_elem_of_singleton. done.
  - rewrite Hraise in H1 |- *. injection H1 as <-. cbn [final raised root set_root].
    split_and!; [done|done|apply walk_unlink_dest|].
    rewrite stdout_app. by destruct Hpre as [->| ->].
Qed.

End more_facts.

Lemma destination_is_a_file_witness :
  copy_skill quiet file_world
    = Run (Raise NotADirectoryError) file_world
        [Called remove_dest (Some NotADirectoryError)].
Proof.
  apply (destination_is_a_file quiet file_world
           [x6f; x6c; x64]%byte).
  vm_compute. reflexivity.
Defined.

(** A source without [scripts], with a destination left from an earlier
    run. *)
Definition stale_no_scripts_world : world :=
  World ["C:"; "work"]
    (plant [(data_src ++ ["config.json"], config_json);
            (["C:"; "work"; ".skill"; "old.txt"], old_txt)]).

Lemma missing_scripts_loses_destination_witness :
  walk (dest_of stale_no_scripts_world ++ ["old.txt"])
    (root stale_no_scripts_world) = Some old_txt ∧
  res (copy_skill quiet stale_no_scripts_world) = Raise FileNotFoundError ∧
  walk (dest_of stale_no_scripts_world)
    (root (final (copy_skill quiet stale_no_scripts_world))) = None.
Proof.
  split; [vm_compute; reflexivity|].
  assert (res (copy_skill quiet stale_no_scripts_world) = Raise FileNotFoundError ∧
          final (copy_skill quiet stale_no_scripts_world)
            = set_root stale_no_scripts_world (cleared stale_no_scripts_world) ∧
          walk (dest_of stale_no_scripts_world)
            (root (final (copy_skill quiet stale_no_scripts_world))) = None ∧
          stdout (log (copy_skill quiet stale_no_scripts_world)) = [])
    as (? & _ & ? & _); [|done].
  apply (missing_scripts_loses_destination quiet stale_no_scripts_world).
  - vm_compute. reflexivity.
  - intros e Hin. vm_compute in Hin.
    apply list_elem_of_singleton in Hin. discriminate Hin.
Defined.

Section progress_facts.
Context (E : environment).
Implicit Types (w : world) (e : exn).

Lemma stdout_reset pre l :
  pre = [] ∨ pre = [Called remove_dest None] → stdout (pre ++ l) = stdout l.
Proof. intros [->| ->]; done. Qed.

Lemma scripts_returned_reset pre l :
  pre = [] ∨ pre = [Called remove_dest None] →
  Called copy_scripts None ∈ pre ++ l ↔ Called copy_scripts None ∈ l.
Proof.
  intros Hpre. rewrite elem_of_app. split; [|by right].
  intros [Hin|Hin]; [|done]. destruct Hpre as [->| ->].
  - by apply elem_of_nil in Hin.
  - apply list_elem_of_singleton in Hin. discriminate Hin.
Qed.

Lemma stdout_Called c r l : stdout (Called c r :: l) = stdout l.
Proof. done. Qed.

Lemma stdout_Printed line l : stdout (Printed line :: l) = line :: stdout l.
Proof. done. Qed.

(** X3.  Standard output tells how far a run got, whether it completed or
    not: it holds no line, or the [scripts] line, or the [scripts] line and
    then the [data] line; it holds both lines exactly when the run completed;
    and it holds the [scripts] line exactly when the [scripts] copy
    returned. *)
Theorem stdout_tells_progress w :
  (stdout (log (copy_skill E w)) = [] ∨
   stdout (log (copy_skill E w)) = [scripts_line] ∨
   stdout (log (copy_skill E w)) = [scripts_line; data_line]) ∧
  (res (copy_skill E w) = Ok () ↔
   stdout (log (copy_skill E w)) = [scripts_line; data_line]) ∧
  (Called copy_scripts None ∈ log (copy_skill E w) ↔
   scripts_line ∈ stdout (log (copy_skill E w))).
Proof.
  destruct (copy_skill_course E w)
    as [e Hsome Hr Hne|pre e Hpre H1 Hne|pre mc es n1 e Hpre ? ? ? ? Hne|
        pre mc es n1 ed n2 Hpre Hc Hs Hn1 Hd Hn2];
    cbn [res log];
    rewrite ?(stdout_reset pre _ Hpre), ?(scripts_returned_reset pre _ Hpre);
    repeat (rewrite stdout_Called || rewrite stdout_Printed);
    change (stdout []) with (@nil string).
  - split_and!; [by left|done|].
    rewrite list_elem_of_singleton, elem_of_nil. split; [discriminate|done].
  - split_and!; [by left|done|].
    rewrite list_elem_of_singleton, elem_of_nil. split; [discriminate|done].
  - split_and!; [by right; left|done|].
    rewrite !elem_of_cons. split; auto.
  - split_and!; [by right; right|done|].
    rewrite !elem_of_cons. split; auto.
Qed.

(** X4.  A run never completes from inside the [data] source or from below
    an entry of the [scripts] source: a copy whose destination lies inside
    what it copies does not return.  Of all the places inside the two
    sources, a run can complete only from the [scripts] source itself. *)
Theorem no_completion_inside_sources w :
  res (copy_skill E w) = Ok () →
  ¬ data_src `prefix_of` cwd w ∧
  (scripts_src `prefix_of` cwd w → cwd w = scripts_src).
Proof.
  intros Hok.
  destruct (copy_skill_Ok E w Hok)
    as (mc & es & ed & n1 & n2 & pre & _ & _ & _ & _ & _ & Hin & Hout & _).
  by split.
Qed.

End progress_facts.

Lemma no_completion_inside_sources_witness :
  ¬ data_src `prefix_of` cwd inside_scripts_world ∧
  (scripts_src `prefix_of` cwd inside_scripts_world →
   cwd inside_scripts_world = scripts_src).
Proof.
  apply (no_completion_inside_sources quiet inside_scripts_world).
  vm_compute. reflexivity.
Defined.

(** From inside the [data] source the [scripts] copy returns and the [data]
    copy does not. *)
Example inside_data_raises :
  res (copy_skill quiet inside_data_world) ≠ Ok () ∧
  stdout (log (copy_skill quiet inside_data_world)) = [scripts_line].
Proof. by vm_compute. Qed.

(** ** A second run *)

Section second_run.
Implicit Types (E : environment) (w : world).

(** Whether a copy returns, and with what, is decided by the tree once the
    system does not refuse it: a copy that returned in one environment
    returns the same in any other that does not refuse it. *)
Lemma copytree_returned_again E1 E2 S D w c w' :
  copytree E1 S D w = returned c w' →
  fault E2 (Copytree S D) w = None →
  copytree E2 S D w = returned c w'.
Proof.
  unfold copytree. intros H Hfault.
  destruct (resolve w S) as [s|]; [|done].
  destruct (walk s (root w)) as [[b|es]|]; [done| |done].
  destruct (resolve w D) as [d|]; [|done].
  destruct (walk d (root w)); [done|].
  destruct (fresh_prefix d (root w)) as [f|]; [|done].
  destruct (nests s d es); [done|].
  rewrite Hfault. by destruct (fault E1 (Copytree S D) w).
Qed.

Lemma copy_subtrees_again E1 E2 w w2 l :
  copy_subtrees E1 w = Run (Ok ()) w2 l →
  (∀ c w', fault E2 c w' = None) →
  copy_subtrees E2 w = Run (Ok ()) w2 l.
Proof.
  intros H1 Hquiet.
  destruct (copy_subtrees_progress E1 w) as [e Hs|w1 e Hs Hd|w1 w2' Hs Hd];
    [done|done|].
  apply (copytree_returned_again E1 E2) in Hs; [|done].
  apply (copytree_returned_again E1 E2) in Hd; [|done].
  injection H1 as <- <-.
  destruct (copy_subtrees_progress E2 w) as [e Hs'|w1' e Hs' Hd'|w1' w2'' Hs' Hd'].
  - by rewrite Hs in Hs'.
  - rewrite Hs in Hs'. injection Hs' as <-. by rewrite Hd in Hd'.
  - rewrite Hs in Hs'. injection Hs' as <-.
    rewrite Hd in Hd'. by injection Hd' as <-.
Qed.

(** X5.  After a run that completed, a second run, in which the system
    refuses no call (whatever it did in the first run), completes as well
    and ends in the same state; it does delete, since the destination is
    there: its events are one delete, then the two copies with their
    lines. *)
Theorem second_run_completes E1 E2 w :
  res (copy_skill E1 w) = Ok () →
  (∀ c w', fault E2 c w' = None) →
  res (copy_skill E2 (final (copy_skill E1 w))) = Ok () ∧
  final (copy_skill E2 (final (copy_skill E1 w))) = final (copy_skill E1 w) ∧
  log (copy_skill E2 (final (copy_skill E1 w)))
    = [Called remove_dest None; Called copy_scripts None; Printed scripts_line;
       Called copy_data None; Printed data_line].
Proof.
  intros Hok1 Hquiet.
  destruct (copy_skill_Ok E1 w Hok1)
    as (mc & es & ed & n1 & n2 & pre & _ & Hc & Hmc & Hs & Hd & Hin & Hout
        & Hn1 & Hn2 & Hcopies & Hfin & _).
  fold (cleared w) in *. rewrite Hfin.
  apply (copy_subtrees_again E1 E2) in Hcopies; [|done].
  pose proof Hn1 as Hn1'. pose proof Hn2 as Hn2'.
  unfold scripts_dest in Hn1'. unfold data_dest in Hn2'.
  rewrite dest_of_snoc in Hn1', Hn2'.
  destruct (walk_two_grafts _ _ _ _ _ _ _ _ _ _ Hc Hmc Hn1' Hn2') as [_ Hdest2].
  destruct (resolve_below_cwd (set_root w n2) ".skill" _ Hdest2) as [mc2 Hc2].
  assert (reset_destination E2 (set_root w n2)
          = returned remove_dest (set_root w (cleared w))) as Hreset.
  { rewrite reset_present by (unfold dest_of; cbn [cwd root set_root]; eauto).
    erewrite rmtree_returns; [|by apply (resolve_Rel _ [".skill"]); eauto
                              |exact Hdest2|apply Hquiet].
    change (unlink _ _) with (cleared (set_root w n2)).
    by rewrite (cleared_again w n2 mc es ed n1 Hc Hmc Hn1 Hn2). }
  assert (copy_skill E2 (set_root w n2)
          = Run (Ok ()) (set_root w n2)
              [Called remove_dest None; Called copy_scripts None;
               Printed scripts_line; Called copy_data None; Printed data_line])
    as ->; [|by split_and!].
  rewrite copy_skill_phases. unfold mbind, io_bind.
  rewrite Hreset. cbn [res final log returned]. by rewrite Hcopies.
Qed.

End second_run.

Lemma second_run_completes_witness :
  res (copy_skill quiet (final (copy_skill quiet stale_world))) = Ok () ∧
  final (copy_skill quiet (final (copy_skill quiet stale_world)))
    = final (copy_skill quiet stale_world).
Proof.
  destruct (second_run_completes quiet quiet stale_world) as (? & ? & _).
  - vm_compute. reflexivity.
  - reflexivity.
  - by split.
Defined.
